(** * Gemini: pretty printer, bag type, mutation retry and workload split

    A shallow embedding of the parts of Gemini that its specification makes
    testable claims about:

    - [typedef]: [BagType] ([pkg/typedef/bag.go]), [Stmt.PrettyCQL],
      [Values.Copy] and [StatementType.PossibleAsyncOperation]
      ([pkg/typedef/types.go]); the interface [Type] is a record of its
      methods, so that what is proved of [PrettyCQL] holds for every
      implementation;
    - [store]: [ignore], [cqlStore.doMutate] and [cqlStore.mutate]
      ([pkg/store/cqlstore.go]);
    - [cmd]: [Status], [collectResults], the range split of [runJob] and the
      loop of [MixedJob] ([cmd/gemini/root.go]);
    - [typedef_rest] and [cmd_rest]: [StatementCacheType.ToString],
      [Values.CopyFrom], [BagType.GenJSONValue] and the schema loops of
      [run].

    Go's [int] is taken as the 64-bit two's complement integer, a [Z] kept in
    range by [GoInt.wrap].  Go strings are [string]s, [[]interface{}] is a
    list of [cell]s, and a slice that the code copies is a header into a
    store of backing arrays. *)

From Stdlib Require Import ZArith List String Ascii Bool Lia Arith.
From Stdlib Require Import Numbers.DecimalString.
From Stdlib Require Import Sorting.Permutation.
Import ListNotations.

Set Implicit Arguments.
Set Warnings "-register-all".

(* ===================================================================== *)
(** ** Go's [int] *)
(* ===================================================================== *)

Module GoInt.

Local Open Scope Z_scope.

Definition bits : Z := 64.
Definition modulus : Z := 2 ^ bits.
Definition max_int : Z := 2 ^ (bits - 1) - 1.
Definition min_int : Z := - 2 ^ (bits - 1).

(** The value an [int] holds after an operation whose exact result is [z]. *)
Definition wrap (z : Z) : Z := (z - min_int) mod modulus + min_int.

Definition add (a b : Z) : Z := wrap (a + b).
Definition mul (a b : Z) : Z := wrap (a * b).

Definition in_range (z : Z) : Prop := min_int <= z <= max_int.

End GoInt.

(* ===================================================================== *)
(** ** The functions of Go's [strings] package that the code calls *)
(* ===================================================================== *)

Module strings.

Local Open Scope string_scope.

(** [strings.Count(s, string(c))] for a one-byte separator. *)
Fixpoint Count (s : string) (c : ascii) : nat :=
  match s with
  | EmptyString => 0
  | String a s' => (if Ascii.eqb a c then 1 else 0) + Count s' c
  end.

(** [strings.Replace(s, string(old), new, 1)]: the leftmost [old], when
    there is one, is replaced by [new]. *)
Fixpoint Replace1 (s : string) (old : ascii) (new : string) : string :=
  match s with
  | EmptyString => EmptyString
  | String a s' =>
      if Ascii.eqb a old then new ++ s' else String a (Replace1 s' old new)
  end.

(** [strings.Repeat(s, count)]. *)
Fixpoint Repeat (s : string) (count : nat) : string :=
  match count with
  | O => EmptyString
  | S n => s ++ Repeat s n
  end.

(** [strings.TrimRight(s, string(cut))]: every trailing [cut] is removed. *)
Fixpoint TrimRight (s : string) (cut : ascii) : string :=
  match s with
  | EmptyString => EmptyString
  | String a s' =>
      match TrimRight s' cut with
      | EmptyString => if Ascii.eqb a cut then EmptyString else String a EmptyString
      | r => String a r
      end
  end.

(** [strings.Join(l, sep)]. *)
Fixpoint Join (l : list string) (sep : string) : string :=
  match l with
  | [] => EmptyString
  | [x] => x
  | x :: rest => x ++ sep ++ Join rest sep
  end.

(** The placeholders of [n] elements, [?,?,...,?]: what is between the
    brackets when [BagType.CQLPretty] starts to print the elements. *)
Definition holders (n : nat) : string := Join (repeat "?" n) ",".

(** A string without placeholder. *)
Definition clean (s : string) : bool := Nat.eqb (Count s "?") 0.

(** Every string of the list but the last one is without placeholder. *)
Fixpoint inner_clean (l : list string) : bool :=
  match l with
  | [] => true
  | [_] => true
  | x :: rest => clean x && inner_clean rest
  end.

End strings.

(* ===================================================================== *)
(** ** Package [typedef] *)
(* ===================================================================== *)

Module typedef.

Local Open Scope string_scope.

(** What a panicking call stopped on. *)
Inductive panic : Type :=
| PanicNilType                      (* [reflect.TypeOf(nil).Kind()] *)
| PanicUnknownType (msg : string)   (* [panic(fmt.Sprintf("set cql pretty, unknown type %v", ct))] *)
| PanicTypeMismatch (st : string)   (* a simple type on a value that does not match it *)
| PanicIndexOutOfRange              (* [x[0]] on an empty slice *)
| PanicSliceBounds                  (* [x[n:]] with a negative [n] *)
| PanicMakeSlice.                   (* [make] with a negative length *)

Inductive result (A : Type) : Type :=
| Ok (a : A)
| Panicked (p : panic).
Arguments Ok {A} a.
Arguments Panicked {A} p.

(** A bound value, [interface{}] in the source: the dynamic values the
    pretty printer tells apart. *)
Inductive cell : Type :=
| VNil
| VBool (b : bool)
| VInt (z : Z)
| VString (s : string)
| VSlice (elems : list cell).

(** [reflect.Kind], as far as [CQLPretty] looks at it. *)
Inductive Kind : Type := KBool | KInt | KString | KSlice.

(** [reflect.TypeOf(v)]: no type for the nil interface. *)
Definition TypeOf (v : cell) : option Kind :=
  match v with
  | VNil => None
  | VBool _ => Some KBool
  | VInt _ => Some KInt
  | VString _ => Some KString
  | VSlice _ => Some KSlice
  end.

(** [reflect.ValueOf(v)], read through [Len] and [Index]: the elements of
    a slice. *)
Definition ValueOf (v : cell) : list cell :=
  match v with VSlice s => s | _ => [] end.

Definition is_slice (v : cell) : bool :=
  match v with VSlice _ => true | _ => false end.

(** [type SimpleType string]: a simple type is its CQL name. *)
Definition SimpleType : Type := string.

(** Modelled from the spec: the constants [TYPE_LIST] and [TYPE_SET] of the
    package are declared outside the files at hand; a bag is [list<T>] or
    [set<T>] and [CQLDef] prints [ComplexType] in front of [<T>]. *)
Definition TYPE_LIST : string := "list".
Definition TYPE_SET : string := "set".

Record BagType : Type := mkBagType {
  ComplexType : string;
  ValueType : SimpleType;
  Frozen : bool
}.

Record PartitionRangeConfig : Type := mkPartitionRangeConfig {
  MaxBlobLength : Z;
  MinBlobLength : Z;
  MaxStringLength : Z;
  MinStringLength : Z;
  UseLWT : bool
}.

Definition BagType_Name (ct : BagType) : string :=
  if Frozen ct
  then "frozen<" ++ ComplexType ct ++ "<" ++ ValueType ct ++ ">>"
  else ComplexType ct ++ "<" ++ ValueType ct ++ ">".

Definition BagType_CQLDef (ct : BagType) : string :=
  if Frozen ct
  then "frozen<" ++ ComplexType ct ++ "<" ++ ValueType ct ++ ">>"
  else ComplexType ct ++ "<" ++ ValueType ct ++ ">".

Definition BagType_CQLHolder (ct : BagType) : string := "?".

Definition BagType_LenValue (ct : BagType) : Z := 1.

Definition BagType_Indexable (ct : BagType) : bool := false.

(** What [fmt] prints for [%v] of a [*BagType]: the fields between
    [&{] and [}]. *)
Definition BagType_format (ct : BagType) : string :=
  "&{" ++ ComplexType ct ++ " " ++ ValueType ct ++ " "
       ++ (if Frozen ct then "true" else "false") ++ "}".

(** The interface [Type], as far as [PrettyCQL] calls it.
    Any implementation is a value of this record: the simple types and the
    bags below, and the tuples, maps, user-defined types and counters that
    are declared outside the files at hand. *)
Record Type_ : Type := mkType {
  Type_CQLHolder : string;
  Type_CQLPretty : string -> list cell -> result (string * Z);
  Type_LenValue : Z
}.

(** *** Slices of bound values

    [type Values []interface{}] is a slice: a header pointing into a backing
    array.  The store [heap] holds the backing arrays by address, so that a
    copy and its original are told apart. *)

Definition heap : Type := list (list cell).

Record Values : Type := mkValues {
  ptr : nat;      (* address of the backing array *)
  off : nat;      (* index of the first element in it *)
  len : nat;
  cap : nat
}.

Definition backing (h : heap) (v : Values) : list cell := nth (ptr v) h [].

(** The elements a slice denotes in a store. *)
Definition elems (h : heap) (v : Values) : list cell :=
  firstn (len v) (skipn (off v) (backing h v)).

(** A slice that Go can hold: its window lies inside its backing array. *)
Definition valid (h : heap) (v : Values) : Prop :=
  ptr v < List.length h /\ off v + len v <= List.length (backing h v).

(** [make(Values, n)]: a fresh zeroed backing array. *)
Definition make (h : heap) (n : nat) : Values * heap :=
  (mkValues (List.length h) 0 n n, (h ++ [repeat VNil n])%list).

Fixpoint set_array (h : heap) (p : nat) (a : list cell) : heap :=
  match h, p with
  | [], _ => []
  | _ :: h', O => a :: h'
  | b :: h', S p' => b :: set_array h' p' a
  end.

(** [copy(dst, src)]: the first [min(len(dst), len(src))] elements of [src]
    are written over those of [dst]; that number is returned. *)
Definition copy (h : heap) (dst src : Values) : nat * heap :=
  let n := Nat.min (len dst) (len src) in
  let xs := firstn n (elems h src) in
  let a := backing h dst in
  (n, set_array h (ptr dst)
        (firstn (off dst) a ++ xs ++ skipn (off dst + List.length xs) a)%list).

Definition Values_Copy (h : heap) (v : Values) : Values * heap :=
  let '(values, h1) := make h (len v) in
  let '(_, h2) := copy h1 values v in
  (values, h2).

(** [v[n:]]. *)
Definition slice_from (v : Values) (n : nat) : Values :=
  mkValues (ptr v) (off v + n) (len v - n) (cap v - n).

(** *** Statements *)

(** [type StatementType uint8]. *)
Definition StatementType : Type := Z.

Record StmtCache : Type := mkStmtCache {
  Query : string;            (* the text [Query.ToCql()] returns *)
  Types : list Type_;
  QueryType : StatementType;
  LenValue : Z
}.

Record ValueWithToken : Type := mkValueWithToken {
  Value : Values;
  Token : Z
}.

Record Stmt : Type := mkStmt {
  Cache : StmtCache;
  ValuesWithToken : option ValueWithToken;
  Values_ : Values
}.

(** The loop [for _, typ := range s.Types] of [PrettyCQL]. *)
Fixpoint PrettyCQL_loop (h : heap) (types : list Type_) (query : string)
    (values : Values) : result string :=
  match types with
  | [] => Ok query
  | typ :: rest =>
      match Type_CQLPretty typ query (elems h values) with
      | Panicked p => Panicked p
      | Ok (query', replaced) =>
          if (Z.of_nat (len values) >=? replaced)%Z then
            if (replaced <? 0)%Z then Panicked PanicSliceBounds
            else PrettyCQL_loop h rest query' (slice_from values (Z.to_nat replaced))
          else Ok query'
      end
  end.

(** [Stmt.PrettyCQL]: the string it returns, and the store it leaves. *)
Definition PrettyCQL (h : heap) (s : Stmt) : result string * heap :=
  let query := Query (Cache s) in
  let '(values, h') := Values_Copy h (Values_ s) in
  if Nat.eqb (len values) 0 then (Ok query, h')
  else (PrettyCQL_loop h' (Types (Cache s)) query values, h').

(** The number of values the types of a statement declare. *)
Definition declared (types : list Type_) : Z :=
  fold_right (fun typ n => (Type_LenValue typ + n)%Z) 0%Z types.

(** A type fills its placeholders from the values [vs] left for it: on
    whatever query, it returns without panic, reports [LenValue()] values
    consumed, and leaves as many [?] less as it consumed values (or none,
    when the query had fewer): what it printed holds no [?]. *)
Definition fills (typ : Type_) (vs : list cell) : Prop :=
  (0 <= Type_LenValue typ)%Z
  /\ forall query, exists query',
       Type_CQLPretty typ query vs = Ok (query', Type_LenValue typ)
       /\ strings.Count query' "?"
          = strings.Count query "?" - Z.to_nat (Type_LenValue typ).

(** Each type of a statement fills its placeholders from the values that
    the types before it left. *)
Fixpoint all_fill (types : list Type_) (vs : list cell) : Prop :=
  match types with
  | [] => True
  | typ :: types' =>
      fills typ vs /\ all_fill types' (skipn (Z.to_nat (Type_LenValue typ)) vs)
  end.

Section Pretty.

(** The literal a simple type prints for one value, when the value matches
    the type.  [SimpleType.CQLPretty] is declared outside the files at
    hand, so the printer of literals is a parameter of everything below;
    it has no literal for a value that does not match the type. *)
Variable literal : SimpleType -> cell -> option string.

(** Modelled from the spec: [SimpleType.CQLPretty] is not among the files
    at hand.  The spec gives its contract: it "replaces the leftmost [?] in
    [query] with a printed literal derived from the front of
    [remaining-values], returning the number of values consumed", a simple
    type has [LenValue() = 1], and "[CQLPretty] panics (fatal) on a
    type/value mismatch".  With no value left there is nothing to print,
    as in [BagType.CQLPretty]. *)
Definition SimpleType_CQLPretty (st : SimpleType) (query : string)
    (value : list cell) : result (string * Z) :=
  match value with
  | [] => Ok (query, 0%Z)
  | v :: _ =>
      match literal st v with
      | Some l => Ok (strings.Replace1 query "?" l, 1%Z)
      | None => Panicked (PanicTypeMismatch st)
      end
  end.

(** Modelled from the spec: a simple type has [LenValue() = 1]. *)
Definition SimpleType_LenValue (st : SimpleType) : Z := 1.

(** The literals of the elements of a slice, when every element matches
    the value type. *)
Fixpoint literals (vt : SimpleType) (s : list cell) : option (list string) :=
  match s with
  | [] => Some []
  | e :: s' =>
      match literal vt e, literals vt s' with
      | Some l, Some ls => Some (l :: ls)
      | _, _ => None
      end
  end.

(** The loop [for i := 0; i < s.Len(); i++] of [BagType.CQLPretty]: each
    element in turn is printed into the leftmost [?] of [vv]; a panic of
    the value type ends the loop. *)
Fixpoint print_elems (vt : SimpleType) (vv : string) (s : list cell)
    : result string :=
  match s with
  | [] => Ok vv
  | e :: s' =>
      match SimpleType_CQLPretty vt vv [e] with
      | Panicked p => Panicked p
      | Ok (vv', _) => print_elems vt vv' s'
      end
  end.

Definition BagType_CQLPretty (ct : BagType) (query : string)
    (value : list cell) : result (string * Z) :=
  match value with
  | [] => Ok (query, 0%Z)
  | v0 :: _ =>
      match TypeOf v0 with
      | None => Panicked PanicNilType
      | Some KSlice =>
          let s := ValueOf v0 in
          let '(op, cl) :=
            if String.eqb (ComplexType ct) TYPE_SET
            then ("{", "}") else ("[", "]") in
          let vv := op in
          let vv := vv ++ strings.Repeat "?," (List.length s) in
          let vv := strings.TrimRight vv "," in
          let vv := vv ++ cl in
          match print_elems (ValueType ct) vv s with
          | Panicked p => Panicked p
          | Ok vv => Ok (strings.Replace1 query "?" vv, 1%Z)
          end
      | Some _ =>
          Panicked (PanicUnknownType
                      ("set cql pretty, unknown type " ++ BagType_format ct))
      end
  end.

(** Modelled from the spec: [TupleType] is not among the files at hand.
    A tuple is an "ordered heterogeneous sequence of SimpleTypes; each
    component consumes its own [?]", [LenValue()] "equals the component
    count" and [CQLHolder()] is ["(?,?,...)"].  Component [i] prints from
    the values left after the [i] before it; as every type, the tuple
    prints nothing when no value is left. *)
Record TupleType : Type := mkTupleType {
  ValueTypes : list SimpleType;
  TupleFrozen : bool
}.

Fixpoint TupleType_components (vts : list SimpleType) (query : string)
    (value : list cell) (cnt : Z) : result (string * Z) :=
  match vts with
  | [] => Ok (query, cnt)
  | tp :: vts' =>
      match SimpleType_CQLPretty tp query value with
      | Panicked p => Panicked p
      | Ok (query', tmp) =>
          TupleType_components vts' query' (skipn 1 value) (cnt + tmp)%Z
      end
  end.

(** The literals of the components of a tuple, each for the value at its
    index, when every component finds a value that matches it. *)
Fixpoint component_literals (vts : list SimpleType) (vs : list cell)
    : option (list string) :=
  match vts, vs with
  | [], _ => Some []
  | _ :: _, [] => None
  | tp :: vts', v :: vs' =>
      match literal tp v, component_literals vts' vs' with
      | Some l, Some ls => Some (l :: ls)
      | _, _ => None
      end
  end.

Definition TupleType_CQLPretty (t : TupleType) (query : string)
    (value : list cell) : result (string * Z) :=
  match value with
  | [] => Ok (query, 0%Z)
  | _ :: _ => TupleType_components (ValueTypes t) query value 0%Z
  end.

Definition TupleType_LenValue (t : TupleType) : Z :=
  Z.of_nat (List.length (ValueTypes t)).

Definition TupleType_CQLHolder (t : TupleType) : string :=
  "(" ++ strings.holders (List.length (ValueTypes t)) ++ ")".

(** The implementations of [Type] by a simple type, a bag and a tuple. *)
Definition SimpleType_Type (st : SimpleType) : Type_ :=
  mkType "?" (SimpleType_CQLPretty st) (SimpleType_LenValue st).

Definition BagType_Type (ct : BagType) : Type_ :=
  mkType (BagType_CQLHolder ct) (BagType_CQLPretty ct) (BagType_LenValue ct).

Definition TupleType_Type (t : TupleType) : Type_ :=
  mkType (TupleType_CQLHolder t) (TupleType_CQLPretty t) (TupleType_LenValue t).

(** The types whose [CQLPretty] is at hand: the bags, and the simple types
    they print their elements with. *)
Inductive at_hand : Type :=
| TSimple (st : SimpleType)
| TBag (ct : BagType).

Definition Type_of (typ : at_hand) : Type_ :=
  match typ with
  | TSimple st => SimpleType_Type st
  | TBag ct => BagType_Type ct
  end.

(** The value bound to a simple type or a bag prints without placeholder:
    a literal for a simple type, a slice of such literals for a bag. *)
Definition prints_clean (typ : at_hand) (v : cell) : bool :=
  match typ with
  | TSimple st =>
      match literal st v with
      | Some l => strings.clean l
      | None => false
      end
  | TBag ct =>
      match v with
      | VSlice s =>
          match literals (ValueType ct) s with
          | Some ls => forallb strings.clean ls
          | None => false
          end
      | _ => false
      end
  end.

(** The value bound to a simple type or a bag matches it: a value with a
    literal for a simple type, a slice of such values for a bag. *)
Definition matches (typ : at_hand) (v : cell) : bool :=
  match typ with
  | TSimple st =>
      match literal st v with Some _ => true | None => false end
  | TBag ct =>
      match v with
      | VSlice s =>
          match literals (ValueType ct) s with Some _ => true | None => false end
      | _ => false
      end
  end.

End Pretty.

(** *** Statement kinds *)

Section Kinds.

(** The constants of the enumeration are declared outside the files at
    hand; the two that [PossibleAsyncOperation] names are parameters. *)
Variables SelectByIndexStatementType SelectFromMaterializedViewStatementType
  : StatementType.

Definition PossibleAsyncOperation (st : StatementType) : bool :=
  if Z.eqb st SelectByIndexStatementType
     || Z.eqb st SelectFromMaterializedViewStatementType
  then true
  else false.

End Kinds.

(** *** Generation of bag values *)

(** A random source, [*rand.Rand]: the numbers it will hand out, and how
    many of them were drawn. *)
Record Rand : Type := mkRand {
  source : nat -> Z;
  drawn : nat
}.

(** Modelled from the spec: [rand.Rand.Intn] is a library function; it
    returns a number of [[0, n)] and advances the source. *)
Definition Intn (r : Rand) (n : Z) : Z * Rand :=
  ((source r (drawn r) mod n)%Z, mkRand (source r) (S (drawn r))).

(** Modelled from the spec: [utils.RandInt2] is not among the files at
    hand.  Sizes are "uniform in [[1, maxBagSize]]" and the call is
    [RandInt2(r, 1, maxBagSize+1)]: the function draws from the half-open
    [[min, max)]. *)
Definition RandInt2 (r : Rand) (min max : Z) : Z * Rand :=
  let '(k, r') := Intn r (max - min) in ((min + k)%Z, r').

(** Modelled from the spec: the constant [maxBagSize] is declared outside
    the files at hand; the spec gives "constant, e.g. 10". *)
Definition maxBagSize : Z := 10.

(** [out[i] = x] on a slice of the right length. *)
Fixpoint set_index (out : list cell) (i : nat) (x : cell) : list cell :=
  match out, i with
  | [], _ => []
  | _ :: out', O => x :: out'
  | y :: out', S i' => y :: set_index out' i' x
  end.

Section Gen.

(** [SimpleType.GenValue] is declared outside the files at hand: the values
    it returns and the source it leaves are a parameter. *)
Variable SimpleType_GenValue :
  SimpleType -> Rand -> PartitionRangeConfig -> list cell * Rand.

(** The loop [for i := 0; i < count; i++] of [BagType.GenValue], with
    [todo] iterations left. *)
Fixpoint GenValue_loop (ct : BagType) (p : PartitionRangeConfig)
    (todo i : nat) (out : list cell) (r : Rand) : result (list cell * Rand) :=
  match todo with
  | O => Ok (out, r)
  | S todo' =>
      match SimpleType_GenValue (ValueType ct) r p with
      | ([], _) => Panicked PanicIndexOutOfRange
      | (x :: _, r') => GenValue_loop ct p todo' (S i) (set_index out i x) r'
      end
  end.

Definition BagType_GenValue (ct : BagType) (r : Rand)
    (p : PartitionRangeConfig) : result (list cell * Rand) :=
  let '(count, r) := RandInt2 r 1 (maxBagSize + 1) in
  if (count <? 0)%Z then Panicked PanicMakeSlice
  else
    let out := repeat VNil (Z.to_nat count) in
    match GenValue_loop ct p (Z.to_nat count) 0 out r with
    | Panicked e => Panicked e
    | Ok (out, r) => Ok ([VSlice out], r)
    end.

End Gen.

End typedef.

(* ===================================================================== *)
(** ** Errors *)
(* ===================================================================== *)

Module errors.

(** The error values the code tells apart: the two sentinels of package
    [context], the sentinel of an empty read, any other error by its
    message, and an error wrapping a cause ([errors.Wrapf], [%w]). *)
Inductive error : Type :=
| Canceled
| DeadlineExceeded
| ErrReadNoDataReturned
| ErrOther (msg : string)
| Wrapped (msg : string) (cause : error).

(** [err == target] on error values. *)
Fixpoint error_eqb (a b : error) : bool :=
  match a, b with
  | Canceled, Canceled => true
  | DeadlineExceeded, DeadlineExceeded => true
  | ErrReadNoDataReturned, ErrReadNoDataReturned => true
  | ErrOther m, ErrOther n => String.eqb m n
  | Wrapped m c, Wrapped n d => String.eqb m n && error_eqb c d
  | _, _ => false
  end.

(** [errors.Is(err, target)]: [err] or one of the causes it wraps is
    [target]. *)
Fixpoint Is (err target : error) : bool :=
  error_eqb err target
  || match err with
     | Wrapped _ cause => Is cause target
     | _ => false
     end.

(** [errors.Wrapf(err, ...)], with the formatted message. *)
Definition Wrapf (err : error) (msg : string) : error := Wrapped msg err.

End errors.

(* ===================================================================== *)
(** ** Package [store] *)
(* ===================================================================== *)

Module store.

Import errors.
Local Open Scope string_scope.

Inductive Level : Type := DebugLevel | ErrorLevel.

Inductive entry : Type :=
| DeadlineExceededForMutation (system query : string) (err : error)
| FailedToApplyMutation (attempts : Z) (err : option error).

Record cqlStore : Type := mkCqlStore {
  system : string;
  maxRetriesMutate : Z;
  maxRetriesMutateSleep : Z;
  useServerSideTimestamps : bool;
  logger : Level -> bool      (* the levels [logger.Check] lets through *)
}.

(** What a call leaves behind: the increments of the [ops] counter and the
    entries written to the log. *)
Record world : Type := mkWorld {
  ops : Z;
  log : list entry
}.

(** What the surroundings do at one attempt of a mutation: the error
    [query.Exec()] returns, and, when the attempt failed, the error
    [ctx.Err()] reports if [ctx.Done()] is the case the [select] takes
    ([None] when the timer of [maxRetriesMutateSleep] is). *)
Record attempt : Type := mkAttempt {
  exec : option error;
  done : option error
}.

Definition ignore (err : option error) : bool :=
  match err with
  | None => true
  | Some err =>
      if Is err Canceled || Is err DeadlineExceeded then true else false
  end.

(** The message [doMutate] wraps an error in:
    ["[cluster = %s, query = '%s']"]. *)
Definition context_of (cs : cqlStore) (queryBody : string) : string :=
  "[cluster = " ++ system cs ++ ", query = '" ++ queryBody ++ "']".

(** [cqlStore.doMutate].  The timestamp only decorates the query that is
    sent; what [Exec] answers is given by the surroundings. *)
Definition doMutate (cs : cqlStore) (queryBody : string)
    (executed : option error) (w : world) : option error * world :=
  match executed with
  | Some err =>
      let w :=
        if Is err DeadlineExceeded && logger cs DebugLevel
        then mkWorld (ops w)
               (log w ++ [DeadlineExceededForMutation (system cs) queryBody err])
        else w in
      if negb (ignore (Some err))
      then (Some (Wrapf err (context_of cs queryBody)), w)
      else (None, w)
  | None => (None, w)
  end.

(** The loop [for i = 0; i < cs.maxRetriesMutate; i++] of [mutate], with
    [todo] iterations left before [i] reaches the bound. *)
Fixpoint mutate_loop (cs : cqlStore) (queryBody : string)
    (env : nat -> attempt) (todo i : nat) (err : option error) (w : world)
    : option error * world :=
  match todo with
  | O =>
      let w :=
        if logger cs ErrorLevel
        then mkWorld (ops w) (log w ++ [FailedToApplyMutation (Z.of_nat i) err])
        else w in
      (err, w)
  | S todo' =>
      let '(err, w) := doMutate cs queryBody (exec (env i)) w in
      match err with
      | None => (None, mkWorld (ops w + 1) (log w))
      | Some _ =>
          match done (env i) with
          | Some ctxErr => (Some ctxErr, w)
          | None => mutate_loop cs queryBody env todo' (S i) err w
          end
      end
  end.

(** An attempt that fails with an error [doMutate] hands on. *)
Definition fails (a : attempt) : Prop :=
  exists err, exec a = Some err /\ ignore (Some err) = false.

(** A failed attempt after which the [select] takes the timer. *)
Definition fails_and_waits (a : attempt) : Prop :=
  fails a /\ done a = None.

Definition mutate (cs : cqlStore) (queryBody : string)
    (env : nat -> attempt) (w : world) : option error * world :=
  mutate_loop cs queryBody env (Z.to_nat (maxRetriesMutate cs)) 0 None w.

End store.

(* ===================================================================== *)
(** ** The command: [runJob] and [MixedJob] *)
(* ===================================================================== *)

Module cmd.

Import errors.

Record Status : Type := mkStatus {
  WriteOps : Z;
  WriteErrors : Z;
  ReadOps : Z;
  ReadErrors : Z
}.

Definition collectResults (one sum : Status) : Status :=
  mkStatus (GoInt.add (WriteOps sum) (WriteOps one))
           (GoInt.add (WriteErrors sum) (WriteErrors one))
           (GoInt.add (ReadOps sum) (ReadOps one))
           (GoInt.add (ReadErrors sum) (ReadErrors one)).

Record PartitionRange : Type := mkPartitionRange {
  Min : Z;
  Max : Z
}.

(** The range [runJob] hands to the worker it starts at index [i]. *)
Definition runJob_range (pkNumberPerThread i : Z) : PartitionRange :=
  let minRange := 0%Z in
  let maxRange := pkNumberPerThread in
  mkPartitionRange (GoInt.add minRange (GoInt.mul i maxRange))
                   (GoInt.add maxRange (GoInt.mul i maxRange)).

(** The first loop of [runJob], [for i := 0; i < threads; i++]: the ranges
    of the workers it starts, in the order of their indices. *)
Fixpoint runJob_spawn (pkNumberPerThread : Z) (todo : nat) (i : Z)
    : list PartitionRange :=
  match todo with
  | O => []
  | S todo' =>
      runJob_range pkNumberPerThread i
        :: runJob_spawn pkNumberPerThread todo' (GoInt.add i 1)
  end.

Definition runJob_ranges (threads pkNumberPerThread : Z) : list PartitionRange :=
  runJob_spawn pkNumberPerThread (Z.to_nat threads) 0.

(** The second loop of [runJob]: the results are added up in the order the
    channel delivers them. *)
Definition runJob_collect (results : list Status) : Status :=
  fold_left (fun testRes res => collectResults res testRes) results
            (mkStatus 0 0 0 0).

(** A seed belongs to a range: the range is half-open. *)
Definition owns (p : PartitionRange) (x : Z) : Prop := (Min p <= x < Max p)%Z.

(** What the session answers in one iteration of a worker. *)
Record answers : Type := mkAnswers {
  mutated : option error;     (* the result of [s.Mutate] *)
  checked : option error      (* the result of [s.Check] *)
}.

(** One iteration of the loop of [MixedJob]. *)
Definition MixedJob_iter (testStatus : Status) (a : answers) : Status :=
  let testStatus :=
    mkStatus (GoInt.add (WriteOps testStatus) 1) (WriteErrors testStatus)
             (ReadOps testStatus) (ReadErrors testStatus) in
  let testStatus :=
    match mutated a with
    | Some _ =>
        mkStatus (WriteOps testStatus) (GoInt.add (WriteErrors testStatus) 1)
                 (ReadOps testStatus) (ReadErrors testStatus)
    | None => testStatus
    end in
  match checked a with
  | None =>
      mkStatus (WriteOps testStatus) (WriteErrors testStatus)
               (GoInt.add (ReadOps testStatus) 1) (ReadErrors testStatus)
  | Some err =>
      if negb (error_eqb err ErrReadNoDataReturned)
      then mkStatus (WriteOps testStatus) (WriteErrors testStatus)
                    (ReadOps testStatus) (GoInt.add (ReadErrors testStatus) 1)
      else testStatus
  end.

(** The [Status] of a worker after its first [n] iterations; [session i]
    is what the session answers in iteration [i]. *)
Fixpoint MixedJob_after (session : nat -> answers) (n : nat) : Status :=
  match n with
  | O => mkStatus 0 0 0 0
  | S n' => MixedJob_iter (MixedJob_after session n') (session n')
  end.

(** Modelled from the spec: [Session.Mutate], through which the worker
    sends its mutation, is not in the source; the spec has each iteration
    dispatch its mutation via [store.mutate].  [dispatch_world] is the
    counter and the log of the store before the mutation of iteration
    [n], and [dispatched] the session of a worker whose mutation of
    iteration [n], with the query [queries n], meets the attempts
    [envs n], and whose check answers [checks n]. *)
Fixpoint dispatch_world (cs : store.cqlStore) (queries : nat -> string)
    (envs : nat -> nat -> store.attempt) (w : store.world) (n : nat)
    : store.world :=
  match n with
  | O => w
  | S n' =>
      snd (store.mutate cs (queries n') (envs n')
             (dispatch_world cs queries envs w n'))
  end.

Definition dispatched (cs : store.cqlStore) (queries : nat -> string)
    (envs : nat -> nat -> store.attempt) (checks : nat -> option error)
    (w : store.world) (n : nat) : answers :=
  mkAnswers (fst (store.mutate cs (queries n) (envs n)
                    (dispatch_world cs queries envs w n)))
            (checks n).

(** A counter that an iteration may still increment without wrapping. *)
Definition roomy (c : Z) : Prop := (0 <= c < GoInt.max_int)%Z.

(** [MixedJob]: the [Status] the worker sends on the channel. *)
Definition MixedJob (maxTests : Z) (session : nat -> answers) : Status :=
  MixedJob_after session (Z.to_nat maxTests).

End cmd.

(* ===================================================================== *)
(** ** Inputs of the examples *)
(* ===================================================================== *)

Module examples.

Import typedef.
Local Open Scope string_scope.

(** Modelled from the spec: a printer of literals in the way the spec shows
    them ([{1:'a',2:'b'}]): whole numbers in decimal for the integer
    types, text between single quotes for the text types, truth values for
    [boolean]; no literal for a value that does not match the type. *)
Definition cqlLiteral (st : SimpleType) (v : cell) : option string :=
  match v with
  | VInt z =>
      if String.eqb st "int" || String.eqb st "bigint"
      then Some (NilZero.string_of_int (Z.to_int z)) else None
  | VString s =>
      if String.eqb st "text" || String.eqb st "varchar"
      then Some ("'" ++ s ++ "'") else None
  | VBool b =>
      if String.eqb st "boolean"
      then Some (if b then "true" else "false") else None
  | VNil => None
  | VSlice _ => None
  end.

Definition list_of_int : BagType := mkBagType TYPE_LIST "int" false.
Definition set_of_int : BagType := mkBagType TYPE_SET "int" true.
Definition list_of_text : BagType := mkBagType TYPE_LIST "text" false.

(** A source that hands out [7], [8], [9], ... *)
Definition counting : Rand := mkRand (fun n => Z.of_nat n + 7)%Z 0.

(** A generator of [int] values: one cell, the next number of the source. *)
Definition genInt (st : SimpleType) (r : Rand) (p : PartitionRangeConfig)
    : list cell * Rand :=
  let '(k, r') := Intn r 100 in ([VInt k], r').

(** A store with one backing array, and statements over it. *)
Definition oneArray : heap := [[VSlice [VInt 1; VInt 2]; VInt 3]].

Definition insertTwo : Stmt :=
  mkStmt (mkStmtCache "INSERT INTO t (l,n) VALUES (?,?)"
            [BagType_Type cqlLiteral list_of_int; SimpleType_Type cqlLiteral "int"]
            5%Z 2%Z)
         None (mkValues 0 0 2 2).

(** A statement with a type that consumes two values. *)
Definition pair_int_text : TupleType := mkTupleType ["int"; "text"] false.

Definition threeCells : heap :=
  [[VSlice [VInt 1; VInt 2]; VInt 3; VString "x"]].

Definition insertPair : Stmt :=
  mkStmt (mkStmtCache "INSERT INTO t (l,p) VALUES (?,(?,?))"
            [BagType_Type cqlLiteral list_of_int;
             TupleType_Type cqlLiteral pair_int_text]
            5%Z 3%Z)
         None (mkValues 0 0 3 3).

(** A statement whose query has one placeholder more than its types. *)
Definition selectTwo : Stmt :=
  mkStmt (mkStmtCache "SELECT * FROM t WHERE l=? AND n=?"
            [BagType_Type cqlLiteral list_of_int] 0%Z 1%Z)
         None (mkValues 0 0 1 2).

(** A statement whose first value prints with a [?] in it. *)
Definition textArray : heap := [[VSlice [VString "why?"]; VInt 3]].

Definition insertText : Stmt :=
  mkStmt (mkStmtCache "INSERT INTO t (l,n) VALUES (?,?)"
            [BagType_Type cqlLiteral list_of_text; SimpleType_Type cqlLiteral "int"]
            5%Z 2%Z)
         None (mkValues 0 0 2 2).

Definition sut : store.cqlStore :=
  store.mkCqlStore "test" 3 10 false (fun _ => true).

Definition sutOnce : store.cqlStore :=
  store.mkCqlStore "test" 1 10 false (fun _ => true).

Definition timeout : errors.error := errors.ErrOther "gocql: no response received".

(** Two attempts time out, the third succeeds; the timer is always the case
    that the [select] takes. *)
Definition failTwice (i : nat) : store.attempt :=
  match i with
  | 0 | 1 => store.mkAttempt (Some timeout) None
  | _ => store.mkAttempt None None
  end.

(** Every attempt times out. *)
Definition failAlways (i : nat) : store.attempt :=
  store.mkAttempt (Some timeout) None.

(** The attempt times out and the context is cancelled while [mutate]
    waits. *)
Definition failThenCancelled (i : nat) : store.attempt :=
  store.mkAttempt (Some timeout) (Some errors.Canceled).

Definition quiet : store.world := store.mkWorld 0 [].

(** A worker over [sut] whose first mutation fails twice and then
    succeeds, whose second fails at every attempt, and whose third fails
    and is cancelled while it waits; every check finds rows that agree. *)
Definition retrying : nat -> cmd.answers :=
  cmd.dispatched sut (fun _ => "INSERT")
    (fun n => match n with
              | 0 => failTwice
              | 1 => failAlways
              | _ => failThenCancelled
              end)
    (fun _ => None) quiet.

(** A session whose mutations fail and whose reads find nothing. *)
Definition failing (i : nat) : cmd.answers :=
  cmd.mkAnswers (Some timeout) (Some errors.ErrReadNoDataReturned).

(** A session that answers, in turn: rows that agree, no row, rows that
    differ. *)
Definition mixed (i : nat) : cmd.answers :=
  match i with
  | 0 => cmd.mkAnswers None None
  | 1 => cmd.mkAnswers None (Some errors.ErrReadNoDataReturned)
  | _ => cmd.mkAnswers None (Some (errors.ErrOther "rows differ"))
  end.

Definition noBounds : PartitionRangeConfig :=
  mkPartitionRangeConfig 0 0 0 0 false.

End examples.

(* ===================================================================== *)
(** ** Package [typedef], the rest of the files *)
(* ===================================================================== *)

Module typedef_rest.

Import typedef.
Local Open Scope string_scope.

(** What stops a call of this part of the package. *)
Inductive fault : Type :=
| UnknownStatementCacheType (t : Z)   (* [panic("unknown statement cache type %d")] *)
| SliceBoundsOutOfRange (high capacity : nat).   (* [v[low:high]] beyond [cap(v)] *)

Inductive outcome (A : Type) : Type :=
| Done (a : A)
| Fault (f : fault).
Arguments Done {A} a.
Arguments Fault {A} f.

(** *** [StatementCacheType] *)

(** [type StatementCacheType uint8], with the constants of its [iota]
    block. *)
Definition StatementCacheType : Type := Z.

Definition CacheInsert : StatementCacheType := 0%Z.
Definition CacheInsertIfNotExists : StatementCacheType := 1%Z.
Definition CacheUpdate : StatementCacheType := 2%Z.
Definition CacheDelete : StatementCacheType := 3%Z.
Definition CacheArrayLen : StatementCacheType := 4%Z.

Definition ToString (t : StatementCacheType) : outcome string :=
  if Z.eqb t CacheInsert then Done "CacheInsert"
  else if Z.eqb t CacheInsertIfNotExists then Done "CacheInsertIfNotExists"
  else if Z.eqb t CacheUpdate then Done "CacheUpdate"
  else if Z.eqb t CacheDelete then Done "CacheDelete"
  else Fault (UnknownStatementCacheType t).

(** *** [Values.CopyFrom] *)

(** A slice with its capacity: the whole of [off .. off + cap) lies in the
    backing array, and the length is within the capacity. *)
Definition roomed (h : heap) (v : Values) : Prop :=
  ptr v < List.length h
  /\ len v <= cap v
  /\ off v + cap v <= List.length (backing h v).

(** The slice expression [v[low:high]]: it may reach beyond [len(v)], up
    to [cap(v)], and panics outside [0 <= low <= high <= cap(v)]. *)
Definition reslice (v : Values) (low high : nat) : outcome Values :=
  if Nat.leb low high && Nat.leb high (cap v)
  then Done (mkValues (ptr v) (off v + low) (high - low) (cap v - low))
  else Fault (SliceBoundsOutOfRange high (cap v)).

Definition CopyFrom (h : heap) (v src : Values) : outcome (Values * heap) :=
  match reslice v (len v) (len v + len src) with
  | Fault f => Fault f
  | Done out =>
      let '(_, h') := copy h out src in
      match reslice v 0 (len v + len src) with
      | Fault f => Fault f
      | Done grown => Done (grown, h')
      end
  end.

(** *** [PrettyCQL] over simple types and bags *)

Section Pretty.

Variable literal : SimpleType -> cell -> option string.

(** As long as types find values, each value matches its type. *)
Fixpoint found_match (types : list at_hand) (values : list cell) : bool :=
  match types, values with
  | [], _ => true
  | _ :: _, [] => true
  | typ :: types', v :: values' =>
      matches literal typ v && found_match types' values'
  end.

(** As long as types find values, the values print without placeholder. *)
Fixpoint found_print_clean (types : list at_hand) (values : list cell) : bool :=
  match types, values with
  | [], _ => true
  | _ :: _, [] => true
  | typ :: types', v :: values' =>
      prints_clean literal typ v && found_print_clean types' values'
  end.

End Pretty.

(** *** [BagType.GenJSONValue] *)

Section Gen.

(** [SimpleType.GenValue] and [SimpleType.GenJSONValue] are declared
    outside the files at hand: what they return and the source they leave
    are parameters. *)
Variable SimpleType_GenValue :
  SimpleType -> Rand -> PartitionRangeConfig -> list cell * Rand.
Variable SimpleType_GenJSONValue :
  SimpleType -> Rand -> PartitionRangeConfig -> cell * Rand.

(** The loop [for i := 0; i < count; i++] of [BagType.GenJSONValue], with
    [todo] iterations left. *)
Fixpoint GenJSONValue_loop (ct : BagType) (p : PartitionRangeConfig)
    (todo i : nat) (out : list cell) (r : Rand) : list cell * Rand :=
  match todo with
  | O => (out, r)
  | S todo' =>
      let '(x, r') := SimpleType_GenJSONValue (ValueType ct) r p in
      GenJSONValue_loop ct p todo' (S i) (set_index out i x) r'
  end.

Definition BagType_GenJSONValue (ct : BagType) (r : Rand)
    (p : PartitionRangeConfig) : result (cell * Rand) :=
  let '(count, r) := RandInt2 r 1 (maxBagSize + 1) in
  if (count <? 0)%Z then Panicked PanicMakeSlice
  else
    let out := repeat VNil (Z.to_nat count) in
    let '(out, r) := GenJSONValue_loop ct p (Z.to_nat count) 0 out r in
    Ok (VSlice out, r).

(** The first cells of [n] successive calls of [SimpleType.GenValue], the
    source handed from each call to the next. *)
Fixpoint generated (vt : SimpleType) (p : PartitionRangeConfig) (n : nat)
    (r : Rand) : list cell * Rand :=
  match n with
  | O => ([], r)
  | S n' =>
      let '(xs, r1) := SimpleType_GenValue vt r p in
      let '(rest, r2) := generated vt p n' r1 in
      (hd VNil xs :: rest, r2)
  end.

End Gen.

End typedef_rest.

(* ===================================================================== *)
(** ** The command, the rest of the file *)
(* ===================================================================== *)

Module cmd_rest.

Import errors cmd.

(** How many of the first [n] iterations satisfy [f]. *)
Fixpoint tally (f : nat -> bool) (n : nat) : Z :=
  match n with
  | O => 0%Z
  | S n' => (tally f n' + if f n' then 1 else 0)%Z
  end.

Definition mutate_failed (session : nat -> answers) (i : nat) : bool :=
  match mutated (session i) with Some _ => true | None => false end.

Definition check_passed (session : nat -> answers) (i : nat) : bool :=
  match checked (session i) with Some _ => false | None => true end.

Definition check_empty (session : nat -> answers) (i : nat) : bool :=
  match checked (session i) with
  | Some err => error_eqb err ErrReadNoDataReturned
  | None => false
  end.

Definition check_failed (session : nat -> answers) (i : nat) : bool :=
  match checked (session i) with
  | Some err => negb (error_eqb err ErrReadNoDataReturned)
  | None => false
  end.

(** What [run] does that can be seen from outside. *)
Inductive event : Type :=
| Println (stmt : string)       (* [fmt.Println(stmt)], when verbose *)
| Mutate (stmt : string)        (* [session.Mutate(stmt)] *)
| Printf (err : error)          (* [fmt.Printf("%v", err)] *)
| RunJob.                       (* [runJob(MixedJob, schema, session)] *)

(** One of the loops [for _, stmt := range ...] of [run]: the statements
    are sent in turn; [answer k] is what the session returns to the call
    of index [k], and [calls] counts the calls made so far.  The loop ends
    on the first error ([run] returns) or at the end of the statements. *)
Fixpoint run_stmts (verbose : bool) (answer : nat -> option error)
    (calls : nat) (stmts : list string) : list event * nat * bool :=
  match stmts with
  | [] => ([], calls, true)
  | stmt :: stmts' =>
      let echo := if verbose then [Println stmt] else [] in
      match answer calls with
      | Some err => (echo ++ [Mutate stmt; Printf err], S calls, false)
      | None =>
          let '(events, calls', ok) :=
            run_stmts verbose answer (S calls) stmts' in
          (echo ++ Mutate stmt :: events, calls', ok)
      end
  end.

(** [run], from [if dropSchema] to the call of [runJob]: the statements
    that drop and create the schema are given, as [GetDropSchema] and
    [GetCreateSchema] return them. *)
Definition run_schema (dropSchema verbose : bool)
    (dropStmts createStmts : list string) (answer : nat -> option error)
    : list event :=
  let '(dropped, calls, ok) :=
    if dropSchema then run_stmts verbose answer 0 dropStmts
    else ([], 0, true) in
  if ok then
    let '(created, _, ok) := run_stmts verbose answer calls createStmts in
    dropped ++ created ++ (if ok then [RunJob] else [])
  else dropped.

(** The statements a trace sends to the session, in order. *)
Fixpoint mutations (events : list event) : list string :=
  match events with
  | [] => []
  | Mutate stmt :: events' => stmt :: mutations events'
  | _ :: events' => mutations events'
  end.

(** The index of the first call the session answers with an error, among
    the first [n] calls from [k] on. *)
Fixpoint first_error (answer : nat -> option error) (k n : nat) : option nat :=
  match n with
  | O => None
  | S n' =>
      match answer k with
      | Some _ => Some k
      | None => first_error answer (S k) n'
      end
  end.

End cmd_rest.

Module examples_rest.

Import typedef typedef_rest examples.
Local Open Scope string_scope.

(** A store whose one backing array has room after the first two cells. *)
Definition roomyArray : heap := [[VInt 1; VInt 2; VNil; VNil; VNil]; [VInt 8; VInt 9]].
Definition firstTwo : Values := mkValues 0 0 2 5.
Definition eightNine : Values := mkValues 1 0 2 2.

(** A statement with more types than values, and one with a value of the
    wrong shape for its bag. *)
Definition insertShort : Stmt :=
  mkStmt (mkStmtCache "INSERT INTO t (l,n) VALUES (?,?)"
            (map (Type_of cqlLiteral) [TBag list_of_int; TSimple "int"])
            5%Z 2%Z)
         None (mkValues 0 0 1 2).

Definition insertMisshaped : Stmt :=
  mkStmt (mkStmtCache "INSERT INTO t (l,m) VALUES (?,?)"
            (map (Type_of cqlLiteral) [TBag list_of_int; TBag list_of_int])
            5%Z 2%Z)
         None (mkValues 0 0 2 2).

Definition selectAll : Stmt :=
  mkStmt (mkStmtCache "SELECT * FROM t"
            (map (Type_of cqlLiteral) [TBag list_of_int; TSimple "int"])
            0%Z 2%Z)
         None (mkValues 0 0 2 2).

(** A generator of JSON values that draws twice for each value. *)
Definition genJSONInt (st : SimpleType) (r : Rand) (p : PartitionRangeConfig)
    : cell * Rand :=
  let '(a, r1) := Intn r 100 in
  let '(b, r2) := Intn r1 100 in (VInt (a + b), r2).

(** A session that refuses the third statement it is sent. *)
Definition refuseThird (k : nat) : option errors.error :=
  match k with
  | 2 => Some (errors.ErrOther "unconfigured table")
  | _ => None
  end.

Definition acceptAll (k : nat) : option errors.error := None.

End examples_rest.

(* ===================================================================== *)
(** ** Facts about [int] and strings *)
(* ===================================================================== *)

Module GoIntFacts.

Import GoInt.
Local Open Scope Z_scope.

Lemma max_int_eq : max_int = 9223372036854775807.
Proof. reflexivity. Qed.

Lemma min_int_eq : min_int = -9223372036854775808.
Proof. reflexivity. Qed.

Lemma wrap_in_range z : in_range z -> wrap z = z.
Proof.
  unfold in_range, wrap. rewrite max_int_eq, min_int_eq. intros H.
  rewrite Z.mod_small; unfold modulus, bits; lia.
Qed.

Lemma add_exact a b : in_range (a + b) -> add a b = a + b.
Proof. apply wrap_in_range. Qed.

Lemma mul_exact a b : in_range (a * b) -> mul a b = a * b.
Proof. apply wrap_in_range. Qed.

End GoIntFacts.

Module StringFacts.

Import strings.
Local Open Scope string_scope.

Lemma app_assoc (a b c : string) : (a ++ b) ++ c = a ++ b ++ c.
Proof. induction a as [|x a IH]; simpl; [reflexivity | now rewrite IH]. Qed.

Lemma app_empty_r (a : string) : a ++ EmptyString = a.
Proof. induction a as [|x a IH]; simpl; [reflexivity | now rewrite IH]. Qed.

Lemma Count_app (a b : string) (c : ascii) :
  Count (a ++ b) c = Count a c + Count b c.
Proof.
  induction a as [|x a IH]; simpl; [reflexivity | rewrite IH; lia].
Qed.

(** When [pre] holds no [old], the [old] that follows it is the leftmost. *)
Lemma Replace1_leftmost (pre post new : string) (old : ascii) :
  Count pre old = 0 ->
  Replace1 (pre ++ String old post) old new = pre ++ new ++ post.
Proof.
  induction pre as [|x pre IH]; simpl; intros H.
  - now rewrite Ascii.eqb_refl.
  - destruct (Ascii.eqb x old); [discriminate | now rewrite IH].
Qed.

Lemma Replace1_absent (s new : string) (old : ascii) :
  Count s old = 0 -> Replace1 s old new = s.
Proof.
  induction s as [|x s IH]; simpl; intros H; [reflexivity|].
  destruct (Ascii.eqb x old); [discriminate | now rewrite IH].
Qed.

(** One [old] goes, those of [new] come. *)
Lemma Count_Replace1 (s new : string) (old : ascii) :
  Count (Replace1 s old new) old
  = match Count s old with
    | O => O
    | S n => n + Count new old
    end.
Proof.
  induction s as [|x s IH]; simpl; [reflexivity|].
  destruct (Ascii.eqb x old) eqn:E; simpl.
  - rewrite Count_app. lia.
  - now rewrite E, IH.
Qed.

Lemma TrimRight_keep (s : string) (a cut : ascii) :
  Ascii.eqb a cut = false ->
  TrimRight (s ++ String a EmptyString) cut = s ++ String a EmptyString.
Proof.
  intros H. induction s as [|x s IH]; simpl.
  - now rewrite H.
  - rewrite IH. destruct s; reflexivity.
Qed.

Lemma TrimRight_drop (s : string) (cut : ascii) :
  TrimRight (s ++ String cut EmptyString) cut = TrimRight s cut.
Proof.
  induction s as [|x s IH]; simpl.
  - now rewrite Ascii.eqb_refl.
  - now rewrite IH.
Qed.

Lemma Repeat_snoc (s : string) (n : nat) :
  Repeat s (S n) = Repeat s n ++ s.
Proof.
  induction n as [|n IH].
  - simpl. now rewrite app_empty_r.
  - change (Repeat s (S (S n))) with (s ++ Repeat s (S n)).
    rewrite IH at 1. change (Repeat s (S n)) with (s ++ Repeat s n).
    now rewrite !app_assoc.
Qed.

Lemma holders_S (n : nat) : holders (S n) = Repeat "?," n ++ "?".
Proof.
  induction n as [|n IH]; [reflexivity|].
  change (holders (S (S n))) with ("?" ++ "," ++ holders (S n)).
  rewrite IH. reflexivity.
Qed.

(** What [BagType.CQLPretty] has in [vv] before it prints the elements. *)
Lemma TrimRight_holders (op : ascii) (n : nat) :
  Ascii.eqb op "," = false ->
  TrimRight (String op (Repeat "?," n)) "," = String op (holders n).
Proof.
  intros Hop. destruct n as [|n].
  - simpl. now rewrite Hop.
  - rewrite Repeat_snoc, holders_S.
    change (String op (Repeat "?," n ++ "?,"))
      with (String op (Repeat "?," n ++ String "?" (String "," EmptyString))).
    replace (String op (Repeat "?," n ++ String "?" (String "," EmptyString)))
      with ((String op (Repeat "?," n ++ "?")) ++ String "," EmptyString)
      by (simpl; now rewrite app_assoc).
    rewrite TrimRight_drop.
    change (String op (Repeat "?," n ++ "?"))
      with ((String op (Repeat "?," n)) ++ String "?" EmptyString).
    now rewrite TrimRight_keep.
Qed.

End StringFacts.

(* ===================================================================== *)
(** ** [BagType.CQLPretty] *)
(* ===================================================================== *)

Module BagFacts.

Import strings typedef StringFacts.
Local Open Scope string_scope.

Section WithLiteral.

Variable literal : SimpleType -> cell -> option string.

Lemma literals_cons vt e s lits :
  literals literal vt (e :: s) = Some lits ->
  exists l ls,
    literal vt e = Some l /\ literals literal vt s = Some ls /\ lits = l :: ls.
Proof.
  cbn [literals]. destruct (literal vt e) as [l|]; [|discriminate].
  destruct (literals literal vt s) as [ls|]; [|discriminate].
  intros [= <-]. now exists l, ls.
Qed.

Lemma literals_length vt s : forall lits,
  literals literal vt s = Some lits -> List.length lits = List.length s.
Proof.
  induction s as [|e s IH]; intros lits H.
  - now injection H as <-.
  - apply literals_cons in H as (l & ls & _ & Hs & ->).
    cbn. now rewrite (IH ls Hs).
Qed.

Lemma print_elems_step vt e s vv l :
  literal vt e = Some l ->
  print_elems literal vt vv (e :: s)
  = print_elems literal vt (Replace1 vv "?" l) s.
Proof. intros H. cbn [print_elems SimpleType_CQLPretty]. now rewrite H. Qed.

(** The elements are printed into the placeholders from left to right, as
    long as no literal brings a placeholder of its own in front of those
    that are still to be filled. *)
Lemma print_elems_holders vt s : forall lits pre cl,
  literals literal vt s = Some lits ->
  Count pre "?" = 0 ->
  inner_clean lits = true ->
  print_elems literal vt (pre ++ holders (List.length s) ++ cl) s
  = Ok (pre ++ Join lits "," ++ cl).
Proof.
  induction s as [|e s IH]; intros lits pre cl Hl Hpre Hin.
  - injection Hl as <-. reflexivity.
  - apply literals_cons in Hl as (l & ls & He & Hs & ->).
    destruct s as [|e' s].
    + injection Hs as <-. rewrite (print_elems_step _ _ He).
      change (holders (List.length [e]) ++ cl) with (String "?" cl).
      now rewrite Replace1_leftmost.
    + destruct (@literals_cons vt e' s ls Hs) as (l' & ls' & _ & _ & ->).
      change (holders (List.length (e :: e' :: s)))
        with ("?" ++ "," ++ holders (List.length (e' :: s))).
      rewrite (print_elems_step _ _ He).
      rewrite !app_assoc. change ("?" ++ ?x) with (String "?" x).
      rewrite Replace1_leftmost by assumption.
      change (inner_clean (l :: l' :: ls'))
        with (clean l && inner_clean (l' :: ls')) in Hin.
      apply andb_prop in Hin as [Hc Hin]. apply Nat.eqb_eq in Hc.
      specialize (IH (l' :: ls') (pre ++ l ++ ",") cl Hs).
      rewrite !app_assoc in IH. rewrite IH.
      * change (Join (l :: l' :: ls') ",")
          with (l ++ "," ++ Join (l' :: ls') ",").
        now rewrite !app_assoc.
      * rewrite !Count_app, Hpre, Hc. reflexivity.
      * exact Hin.
Qed.

(** The first element that does not match the value type ends the loop on
    the panic of the value type. *)
Lemma print_elems_mismatch vt s : forall vv,
  literals literal vt s = None ->
  print_elems literal vt vv s = Panicked (PanicTypeMismatch vt).
Proof.
  induction s as [|e s IH]; intros vv H; [discriminate H|].
  cbn [literals] in H. cbn [print_elems SimpleType_CQLPretty].
  destruct (literal vt e) as [l|]; [|reflexivity].
  apply IH. now destruct (literals literal vt s).
Qed.

(** The bracketed literal a bag prints for the slice [s]. *)
Lemma BagType_CQLPretty_eq ct query s rest lits :
  literals literal (ValueType ct) s = Some lits ->
  inner_clean lits = true ->
  BagType_CQLPretty literal ct query (VSlice s :: rest)
  = Ok (Replace1 query "?"
          ((if String.eqb (ComplexType ct) TYPE_SET then "{" else "[")
           ++ Join lits ","
           ++ (if String.eqb (ComplexType ct) TYPE_SET then "}" else "]")),
        1%Z).
Proof.
  intros Hl Hin. unfold BagType_CQLPretty. cbn [TypeOf ValueOf].
  destruct (String.eqb (ComplexType ct) TYPE_SET).
  - change ("{" ++ Repeat "?," (List.length s))
      with (String "{" (Repeat "?," (List.length s))).
    rewrite TrimRight_holders by reflexivity.
    change (String "{" (holders (List.length s)) ++ "}")
      with ("{" ++ holders (List.length s) ++ "}").
    now rewrite (@print_elems_holders (ValueType ct) s lits "{" "}" Hl).
  - change ("[" ++ Repeat "?," (List.length s))
      with (String "[" (Repeat "?," (List.length s))).
    rewrite TrimRight_holders by reflexivity.
    change (String "[" (holders (List.length s)) ++ "]")
      with ("[" ++ holders (List.length s) ++ "]").
    now rewrite (@print_elems_holders (ValueType ct) s lits "[" "]" Hl).
Qed.

(** A bag on a slice with an element that does not match the value type
    panics in the value type. *)
Lemma BagType_CQLPretty_mismatch ct query s rest :
  literals literal (ValueType ct) s = None ->
  BagType_CQLPretty literal ct query (VSlice s :: rest)
  = Panicked (PanicTypeMismatch (ValueType ct)).
Proof.
  intros Hl. unfold BagType_CQLPretty. cbn [TypeOf ValueOf].
  destruct (String.eqb (ComplexType ct) TYPE_SET);
    now rewrite print_elems_mismatch.
Qed.

(** A bag on a slice whose elements all match returns, with one value
    consumed, whatever the literals hold. *)
Lemma print_elems_returns vt s : forall lits vv,
  literals literal vt s = Some lits ->
  exists vv', print_elems literal vt vv s = Ok vv'.
Proof.
  induction s as [|e s IH]; intros lits vv Hl.
  - now exists vv.
  - apply literals_cons in Hl as (l & ls & He & Hs & ->).
    rewrite (print_elems_step _ _ He). now apply (IH ls).
Qed.

Lemma BagType_CQLPretty_returns ct query s rest lits :
  literals literal (ValueType ct) s = Some lits ->
  exists vv,
    BagType_CQLPretty literal ct query (VSlice s :: rest)
    = Ok (Replace1 query "?" vv, 1%Z).
Proof.
  intros Hl. unfold BagType_CQLPretty. cbn [TypeOf ValueOf].
  destruct (String.eqb (ComplexType ct) TYPE_SET).
  - destruct (@print_elems_returns (ValueType ct) s lits
                (TrimRight ("{" ++ Repeat "?," (List.length s)) "," ++ "}") Hl)
      as [vv Hv].
    rewrite Hv. now exists vv.
  - destruct (@print_elems_returns (ValueType ct) s lits
                (TrimRight ("[" ++ Repeat "?," (List.length s)) "," ++ "]") Hl)
      as [vv Hv].
    rewrite Hv. now exists vv.
Qed.

(** C7 (as amended).  A bag bound to a non-empty slice whose elements have
    the literals [lits], which, the last one apart, hold no [?]:
    [CQLPretty] replaces exactly the leftmost [?] of the query (the one
    after a prefix [pre] without [?]) by the element literals, separated
    by commas, between [[] and []] for a list and between [{] and [}] for
    a set, and reports one value consumed; [CQLHolder] is [?] and
    [LenValue] is 1. *)
Theorem BagType_CQLPretty_wraps_literals ct pre post s rest lits :
  s <> [] ->
  Count pre "?" = 0 ->
  literals literal (ValueType ct) s = Some lits ->
  inner_clean lits = true ->
  (ComplexType ct = TYPE_LIST ->
   BagType_CQLPretty literal ct (pre ++ "?" ++ post) (VSlice s :: rest)
   = Ok (pre ++ "[" ++ Join lits "," ++ "]" ++ post, 1%Z))
  /\ (ComplexType ct = TYPE_SET ->
      BagType_CQLPretty literal ct (pre ++ "?" ++ post) (VSlice s :: rest)
      = Ok (pre ++ "{" ++ Join lits "," ++ "}" ++ post, 1%Z))
  /\ BagType_CQLHolder ct = "?"
  /\ BagType_LenValue ct = 1%Z.
Proof.
  intros _ Hpre Hl Hin. repeat split.
  - intros Hc. rewrite (@BagType_CQLPretty_eq ct _ s rest lits Hl Hin). rewrite Hc.
    change (String.eqb TYPE_LIST TYPE_SET) with false. cbv iota.
    change (pre ++ "?" ++ post) with (pre ++ String "?" post).
    rewrite Replace1_leftmost by assumption. now rewrite !app_assoc.
  - intros Hc. rewrite (@BagType_CQLPretty_eq ct _ s rest lits Hl Hin). rewrite Hc.
    change (String.eqb TYPE_SET TYPE_SET) with true. cbv iota.
    change (pre ++ "?" ++ post) with (pre ++ String "?" post).
    rewrite Replace1_leftmost by assumption. now rewrite !app_assoc.
Qed.

(** C9 (as amended).  With a first value that is not a slice [CQLPretty]
    panics: on the absent type of a nil value, else with its own "unknown
    type" and the [%v] of the bag.  With a first value that is a slice
    that panic is out of reach: [CQLPretty] returns a query and reports
    one value consumed when every element of the slice matches the value
    type, and otherwise panics in the value type, on the first element
    that does not match. *)
Theorem BagType_CQLPretty_own_panic ct query v rest :
  (is_slice v = false ->
   BagType_CQLPretty literal ct query (v :: rest)
   = Panicked (match TypeOf v with
               | None => PanicNilType
               | Some _ =>
                   PanicUnknownType
                     ("set cql pretty, unknown type " ++ BagType_format ct)
               end))
  /\ (is_slice v = true ->
      (forall lits,
         literals literal (ValueType ct) (ValueOf v) = Some lits ->
         exists query',
           BagType_CQLPretty literal ct query (v :: rest) = Ok (query', 1%Z))
      /\ (literals literal (ValueType ct) (ValueOf v) = None ->
          BagType_CQLPretty literal ct query (v :: rest)
          = Panicked (PanicTypeMismatch (ValueType ct)))).
Proof.
  split; intros H.
  - destruct v; try discriminate H; reflexivity.
  - destruct v as [| | | |s]; try discriminate H. cbn [ValueOf]. split.
    + intros lits Hl.
      destruct (@BagType_CQLPretty_returns ct query s rest lits Hl) as [vv Hv].
      rewrite Hv. eexists. reflexivity.
    + apply BagType_CQLPretty_mismatch.
Qed.

End WithLiteral.

Import examples.

Lemma BagType_CQLPretty_wraps_literals_witness :
  BagType_CQLPretty cqlLiteral set_of_int "INSERT INTO t (c) VALUES (?) IF ?"
    [VSlice [VInt 1; VInt (-2); VInt 30]; VInt 4]
  = Ok ("INSERT INTO t (c) VALUES ({1,-2,30}) IF ?", 1%Z).
Proof.
  apply (@BagType_CQLPretty_wraps_literals cqlLiteral set_of_int
           "INSERT INTO t (c) VALUES (" ") IF ?"
           [VInt 1; VInt (-2); VInt 30] [VInt 4] ["1"; "-2"; "30"]);
    [discriminate | reflexivity | reflexivity | reflexivity | reflexivity].
Defined.

(** C7 as stated fails: the literal of the first element brings a [?],
    and the second element is printed into it. *)
Lemma BagType_CQLPretty_literal_with_placeholder :
  literals cqlLiteral "text" [VString "?"; VString "x"] = Some ["'?'"; "'x'"]
  /\ BagType_CQLPretty cqlLiteral list_of_text "INSERT INTO t (c) VALUES (?)"
       [VSlice [VString "?"; VString "x"]]
     = Ok ("INSERT INTO t (c) VALUES ([''x'',?])", 1%Z)
  /\ "INSERT INTO t (c) VALUES ([''x'',?])"
     <> "INSERT INTO t (c) VALUES ("
        ++ "[" ++ Join ["'?'"; "'x'"] "," ++ "]" ++ ")".
Proof. split; [reflexivity | split; [reflexivity | discriminate]]. Qed.

Lemma BagType_CQLPretty_own_panic_witness :
  BagType_CQLPretty cqlLiteral list_of_int "SELECT ?" [VInt 3]
  = Panicked (PanicUnknownType
                "set cql pretty, unknown type &{list int false}")
  /\ (exists query', BagType_CQLPretty cqlLiteral list_of_int "SELECT ?"
                       [VSlice [VInt 3]] = Ok (query', 1%Z))
  /\ BagType_CQLPretty cqlLiteral list_of_int "SELECT ?"
       [VSlice [VInt 3; VString "a"]]
     = Panicked (PanicTypeMismatch "int").
Proof.
  split; [|split].
  - apply (BagType_CQLPretty_own_panic cqlLiteral list_of_int
             "SELECT ?" (VInt 3) []). reflexivity.
  - apply (BagType_CQLPretty_own_panic cqlLiteral list_of_int
             "SELECT ?" (VSlice [VInt 3]) []) with (lits := ["3"]);
      reflexivity.
  - apply (BagType_CQLPretty_own_panic cqlLiteral list_of_int
             "SELECT ?" (VSlice [VInt 3; VString "a"]) []); reflexivity.
Defined.

(** C9 as stated fails: the first value is a slice, and [CQLPretty] does
    not return: an element does not match the value type. *)
Lemma BagType_CQLPretty_slice_of_mismatch :
  is_slice (VSlice [VString "a"]) = true
  /\ BagType_CQLPretty cqlLiteral list_of_int "SELECT ?" [VSlice [VString "a"]]
     = Panicked (PanicTypeMismatch "int").
Proof. split; reflexivity. Qed.

End BagFacts.

(* ===================================================================== *)
(** ** [Values.Copy] *)
(* ===================================================================== *)

Module ValuesFacts.

Import typedef.

Lemma nth_fresh (h : heap) (a : list cell) :
  nth (List.length h) (h ++ [a]) [] = a.
Proof. rewrite app_nth2, Nat.sub_diag by lia. reflexivity. Qed.

Lemma nth_old (h : heap) (a : list cell) (p : nat) :
  p < List.length h -> nth p (h ++ [a]) [] = nth p h [].
Proof. intros H. now rewrite app_nth1. Qed.

Lemma set_array_fresh (h : heap) (a b : list cell) :
  set_array (h ++ [a]) (List.length h) b = h ++ [b].
Proof. induction h as [|x h IH]; simpl; [reflexivity | now rewrite IH]. Qed.

Lemma elems_old (h : heap) (a : list cell) (v : Values) :
  ptr v < List.length h -> elems (h ++ [a]) v = elems h v.
Proof. intros H. unfold elems, backing. now rewrite nth_old. Qed.

Lemma elems_length (h : heap) (v : Values) :
  valid h v -> List.length (elems h v) = len v.
Proof.
  intros [_ H]. unfold elems. rewrite length_firstn, length_skipn. lia.
Qed.

(** The slice a copy returns and the store it leaves: one more backing
    array, holding the elements of the original. *)
Lemma Values_Copy_eq (h : heap) (v : Values) :
  valid h v ->
  Values_Copy h v
  = (mkValues (List.length h) 0 (len v) (len v), h ++ [elems h v]).
Proof.
  intros Hv. pose proof (elems_length Hv) as Hlen. destruct Hv as [Hp Hb].
  unfold Values_Copy, make, copy. cbn [len off ptr].
  rewrite elems_old by assumption. unfold backing. cbn [ptr].
  rewrite nth_fresh, set_array_fresh.
  rewrite Nat.min_id, <- Hlen, firstn_all, Hlen. cbn [firstn app Nat.add].
  rewrite skipn_all2 by (rewrite repeat_length; lia).
  now rewrite app_nil_r.
Qed.

Lemma elems_fresh (h : heap) (a : list cell) :
  elems (h ++ [a]) (mkValues (List.length h) 0 (List.length a) (List.length a)) = a.
Proof.
  unfold elems, backing. cbn [ptr off len]. rewrite nth_fresh.
  cbn [skipn]. apply firstn_all.
Qed.

Lemma valid_old (h : heap) (a : list cell) (v : Values) :
  valid h v -> valid (h ++ [a]) v.
Proof.
  intros [Hp Hb]. split.
  - rewrite length_app. simpl. lia.
  - unfold backing in *. now rewrite nth_old.
Qed.

Lemma set_array_other (h : heap) (p q : nat) (a : list cell) :
  p <> q -> nth q (set_array h p a) [] = nth q h [].
Proof.
  revert p q. induction h as [|x h IH]; intros [|p] [|q] H; simpl;
    try reflexivity; try congruence.
  apply IH. congruence.
Qed.

(** [v[n:]] denotes the elements of [v] after the first [n]. *)
Lemma elems_slice_from (h : heap) (v : Values) (n : nat) :
  n <= len v -> elems h (slice_from v n) = skipn n (elems h v).
Proof.
  intros H. unfold elems, slice_from, backing. cbn [ptr off len].
  rewrite skipn_firstn_comm, skipn_skipn.
  replace (n + off v) with (off v + n) by lia.
  reflexivity.
Qed.

Lemma valid_slice_from (h : heap) (v : Values) (n : nat) :
  n <= len v -> valid h v -> valid h (slice_from v n).
Proof.
  intros H [Hp Hb]. split; [exact Hp|].
  unfold slice_from, backing in *. cbn [ptr off len]. lia.
Qed.

End ValuesFacts.

(* ===================================================================== *)
(** ** [Stmt.PrettyCQL] *)
(* ===================================================================== *)

Module PrettyFacts.

Import strings typedef StringFacts BagFacts ValuesFacts.
Local Open Scope string_scope.

Lemma PrettyCQL_heap h s :
  snd (PrettyCQL h s) = snd (Values_Copy h (Values_ s)).
Proof.
  unfold PrettyCQL. destruct (Values_Copy h (Values_ s)) as [values h'].
  now destruct (Nat.eqb (len values) 0).
Qed.

(** C10.  [Values.Copy] returns a slice of the same length, with the same
    elements, over a backing array of its own (whatever is written there
    leaves the original as it was); and after [PrettyCQL] the values of the
    statement, and every backing array there was, are what they were. *)
Theorem PrettyCQL_leaves_Values h s :
  valid h (Values_ s) ->
  let copied := fst (Values_Copy h (Values_ s)) in
  let h1 := snd (Values_Copy h (Values_ s)) in
  let h2 := snd (PrettyCQL h s) in
  len copied = len (Values_ s)
  /\ elems h1 copied = elems h (Values_ s)
  /\ ptr copied <> ptr (Values_ s)
  /\ (forall a, elems (set_array h1 (ptr copied) a) (Values_ s)
                = elems h (Values_ s))
  /\ elems h2 (Values_ s) = elems h (Values_ s)
  /\ (forall p, p < List.length h -> nth p h2 [] = nth p h []).
Proof.
  intros Hv. cbv zeta. rewrite PrettyCQL_heap, Values_Copy_eq by assumption.
  cbn [fst snd len ptr].
  pose proof (elems_length Hv) as Hlen. destruct Hv as [Hp Hb].
  repeat split.
  - rewrite <- Hlen at 1 2. apply elems_fresh.
  - lia.
  - intros a. unfold elems, backing.
    rewrite set_array_other by lia. now rewrite nth_old.
  - now apply elems_old.
  - intros p H. now apply nth_old.
Qed.

Lemma Count_Join_clean (l : list string) :
  forallb clean l = true -> Count (Join l ",") "?" = 0.
Proof.
  induction l as [|x l IH]; [reflexivity|].
  cbn [forallb]. intros H. apply andb_prop in H as [Hx Hl].
  apply Nat.eqb_eq in Hx. destruct l as [|y l]; [exact Hx|].
  change (Join (x :: y :: l) ",") with (x ++ "," ++ Join (y :: l) ",").
  rewrite !Count_app, Hx, (IH Hl). reflexivity.
Qed.

Lemma inner_clean_of_clean (l : list string) :
  forallb clean l = true -> inner_clean l = true.
Proof.
  induction l as [|x l IH]; [reflexivity|].
  cbn [forallb]. intros H. apply andb_prop in H as [Hx Hl].
  destruct l as [|y l]; [reflexivity|].
  change (inner_clean (x :: y :: l)) with (clean x && inner_clean (y :: l)).
  now rewrite Hx, (IH Hl).
Qed.

Lemma declared_cons typ types :
  declared (typ :: types) = (Type_LenValue typ + declared types)%Z.
Proof. reflexivity. Qed.

Lemma all_fill_declared types : forall vs,
  all_fill types vs -> (0 <= declared types)%Z.
Proof.
  induction types as [|typ types IH]; intros vs H; [cbn; lia|].
  destruct H as [[Hn _] Hrest]. rewrite declared_cons.
  specialize (IH _ Hrest). lia.
Qed.

(** The loop over types that fill their placeholders: every type finds
    its values, and the placeholders go as the values are consumed. *)
Lemma PrettyCQL_loop_fills h types : forall query values,
  valid h values ->
  (declared types <= Z.of_nat (len values))%Z ->
  all_fill types (elems h values) ->
  exists query',
    PrettyCQL_loop h types query values = Ok query'
    /\ Count query' "?" = Count query "?" - Z.to_nat (declared types).
Proof.
  induction types as [|typ types IH]; intros query values Hv Hd Hf.
  - exists query. split; [reflexivity | cbn; lia].
  - destruct Hf as [[Hn Hf] Hrest].
    pose proof (all_fill_declared _ _ Hrest) as Hpos.
    rewrite declared_cons in *.
    destruct (Hf query) as (q1 & Hp & Hc1).
    cbn [PrettyCQL_loop]. rewrite Hp.
    replace (Z.of_nat (len values) >=? Type_LenValue typ)%Z with true
      by (symmetry; apply Z.geb_le; lia).
    replace (Type_LenValue typ <? 0)%Z with false
      by (symmetry; apply Z.ltb_ge; lia).
    assert (Hle : Z.to_nat (Type_LenValue typ) <= len values) by lia.
    destruct (IH q1 (slice_from values (Z.to_nat (Type_LenValue typ))))
      as (q2 & Hq2 & Hc2).
    + now apply valid_slice_from.
    + cbn [slice_from len]. lia.
    + now rewrite elems_slice_from.
    + exists q2. split; [exact Hq2|]. rewrite Hc2, Hc1. lia.
Qed.

(** C1 (as amended).  A statement whose values are at least as many as its
    types declare, each of whose types fills its placeholders from the
    values left for it (it returns, consumes its [LenValue()] values and
    leaves that many [?] less, what it prints holding none), and whose
    query holds no more [?] than its types declare: [PrettyCQL] returns a
    query without any [?]. *)
Theorem PrettyCQL_no_placeholder_left h s :
  valid h (Values_ s) ->
  (declared (Types (Cache s)) <= Z.of_nat (len (Values_ s)))%Z ->
  all_fill (Types (Cache s)) (elems h (Values_ s)) ->
  (Z.of_nat (Count (Query (Cache s)) "?") <= declared (Types (Cache s)))%Z ->
  exists query,
    fst (PrettyCQL h s) = Ok query /\ Count query "?" = 0.
Proof.
  intros Hv Hd Hf Hq.
  pose proof (elems_length Hv) as Hlen.
  unfold PrettyCQL. rewrite Values_Copy_eq by assumption.
  cbn [len]. destruct (Nat.eqb (len (Values_ s)) 0) eqn:E; cbn [fst].
  - exists (Query (Cache s)). split; [reflexivity|].
    apply Nat.eqb_eq in E. lia.
  - destruct (@PrettyCQL_loop_fills (h ++ [elems h (Values_ s)])%list
                (Types (Cache s)) (Query (Cache s))
                (mkValues (List.length h) 0 (len (Values_ s)) (len (Values_ s))))
      as (q & Hq1 & Hq2).
    + split; cbn [ptr off len].
      * rewrite length_app. cbn. lia.
      * unfold backing. cbn [ptr]. rewrite nth_fresh. lia.
    + exact Hd.
    + rewrite <- Hlen at 1 2. rewrite elems_fresh. exact Hf.
    + exists q. split; [exact Hq1 | lia].
Qed.

Section WithLiteral.

Variable literal : SimpleType -> cell -> option string.

(** A simple type fills one placeholder from a value whose literal holds
    no [?]. *)
Lemma SimpleType_fills st v vs l :
  literal st v = Some l -> clean l = true ->
  fills (SimpleType_Type literal st) (v :: vs).
Proof.
  intros Hl Hc. split; [discriminate|]. intros query.
  exists (Replace1 query "?" l). cbn [Type_CQLPretty SimpleType_Type
    Type_LenValue SimpleType_CQLPretty SimpleType_LenValue].
  rewrite Hl. split; [reflexivity|].
  apply Nat.eqb_eq in Hc. rewrite Count_Replace1, Hc.
  unfold SimpleType_LenValue. change (Z.to_nat 1) with 1.
  destruct (Count query "?"); lia.
Qed.

(** A bag fills one placeholder from a slice whose elements have literals
    that hold no [?]. *)
Lemma BagType_fills ct s vs lits :
  literals literal (ValueType ct) s = Some lits ->
  forallb clean lits = true ->
  fills (BagType_Type literal ct) (VSlice s :: vs).
Proof.
  intros Hl Hc. split; [discriminate|]. intros query.
  cbn [Type_CQLPretty BagType_Type Type_LenValue BagType_LenValue].
  rewrite (@BagType_CQLPretty_eq literal ct query s vs lits Hl
             (inner_clean_of_clean _ Hc)).
  eexists. split; [reflexivity|].
  rewrite Count_Replace1, !Count_app, (Count_Join_clean _ Hc).
  unfold BagType_LenValue. change (Z.to_nat 1) with 1.
  destruct (Count query "?"), (String.eqb (ComplexType ct) TYPE_SET);
    cbn [Count Ascii.eqb Bool.eqb]; lia.
Qed.

Lemma TupleType_components_fills vts : forall vs lits query cnt,
  component_literals literal vts vs = Some lits ->
  forallb clean lits = true ->
  exists query',
    TupleType_components literal vts query vs cnt
    = Ok (query', (cnt + Z.of_nat (List.length vts))%Z)
    /\ Count query' "?" = Count query "?" - List.length vts.
Proof.
  induction vts as [|tp vts IH]; intros vs lits query cnt Hl Hc.
  - exists query. cbn. split; [now rewrite Z.add_0_r | lia].
  - destruct vs as [|v vs]; [discriminate Hl|].
    cbn [component_literals] in Hl.
    destruct (literal tp v) as [l|] eqn:El; [|discriminate Hl].
    destruct (component_literals literal vts vs) as [ls|] eqn:Els;
      [|discriminate Hl].
    injection Hl as <-. cbn [forallb] in Hc.
    apply andb_prop in Hc as [Hc1 Hc2]. apply Nat.eqb_eq in Hc1.
    cbn [TupleType_components SimpleType_CQLPretty skipn]. rewrite El.
    destruct (IH vs ls (Replace1 query "?" l) (cnt + 1)%Z Els Hc2)
      as (q & Hq & Hn).
    exists q. split.
    + rewrite Hq. f_equal. f_equal. cbn [List.length]. lia.
    + rewrite Hn, Count_Replace1, Hc1. cbn [List.length].
      destruct (Count query "?"); lia.
Qed.

(** A tuple fills one placeholder for each component, from values whose
    literals hold no [?]. *)
Lemma TupleType_fills t vs lits :
  component_literals literal (ValueTypes t) vs = Some lits ->
  forallb clean lits = true ->
  fills (TupleType_Type literal t) vs.
Proof.
  intros Hl Hc. split; [apply Nat2Z.is_nonneg|]. intros query.
  cbn [Type_CQLPretty TupleType_Type Type_LenValue].
  unfold TupleType_CQLPretty, TupleType_LenValue.
  destruct vs as [|v vs].
  - destruct (ValueTypes t); [|discriminate Hl].
    exists query. cbn. split; [reflexivity | lia].
  - destruct (@TupleType_components_fills (ValueTypes t) (v :: vs) lits
                query 0%Z Hl Hc) as (q & Hq & Hn).
    exists q. split; [exact Hq|]. rewrite Hn. lia.
Qed.

End WithLiteral.

Import examples.

Lemma PrettyCQL_leaves_Values_witness :
  elems (snd (PrettyCQL oneArray insertTwo)) (Values_ insertTwo)
  = [VSlice [VInt 1; VInt 2]; VInt 3].
Proof.
  apply (@PrettyCQL_leaves_Values oneArray insertTwo).
  unfold valid. cbn. lia.
Defined.

Lemma PrettyCQL_no_placeholder_left_witness :
  exists query,
    fst (PrettyCQL threeCells insertPair) = Ok query
    /\ Count query "?" = 0.
Proof.
  apply (@PrettyCQL_no_placeholder_left threeCells insertPair).
  - unfold valid. cbn. lia.
  - cbn. lia.
  - split; [|split; [|exact I]].
    + apply (@BagType_fills cqlLiteral list_of_int [VInt 1; VInt 2]
               [VInt 3; VString "x"] ["1"; "2"]); reflexivity.
    + apply (@TupleType_fills cqlLiteral pair_int_text
               [VInt 3; VString "x"] ["3"; "'x'"]); reflexivity.
  - cbn. lia.
Defined.

(** C1 as stated fails: the values are as many as the types declare, each
    placeholder of the query has its type, and a [?] is left: the literal
    of the bag brings one, and the next type prints into it. *)
Lemma PrettyCQL_placeholder_in_literal :
  (declared (Types (Cache insertText)) <= Z.of_nat (len (Values_ insertText)))%Z
  /\ Z.of_nat (Count (Query (Cache insertText)) "?")
     = declared (Types (Cache insertText))
  /\ fst (PrettyCQL textArray insertText)
     = Ok "INSERT INTO t (l,n) VALUES (['why3'],?)"
  /\ Count "INSERT INTO t (l,n) VALUES (['why3'],?)" "?" = 1.
Proof.
  split; [apply Z.leb_le; reflexivity|]. repeat split.
Qed.

(** A [?] is left as well in a query that has more of them than the types
    declare. *)
Lemma PrettyCQL_placeholder_without_type :
  (declared (Types (Cache selectTwo)) <= Z.of_nat (len (Values_ selectTwo)))%Z
  /\ fst (PrettyCQL oneArray selectTwo)
     = Ok "SELECT * FROM t WHERE l=[1,2] AND n=?"
  /\ Count "SELECT * FROM t WHERE l=[1,2] AND n=?" "?" = 1.
Proof. split; [apply Z.leb_le | split]; reflexivity. Qed.

End PrettyFacts.

(* ===================================================================== *)
(** ** [StatementType.PossibleAsyncOperation] and [BagType.GenValue] *)
(* ===================================================================== *)

Module KindFacts.

Import typedef.
Local Open Scope Z_scope.

(** C6.  Whatever the two constants are, [PossibleAsyncOperation] is true
    of a statement type exactly when it is one of them, and false of every
    other. *)
Theorem PossibleAsyncOperation_spec
    (SelectByIndexStatementType SelectFromMaterializedViewStatementType st
       : StatementType) :
  (PossibleAsyncOperation SelectByIndexStatementType
     SelectFromMaterializedViewStatementType st = true
   <-> st = SelectByIndexStatementType
       \/ st = SelectFromMaterializedViewStatementType)
  /\ (PossibleAsyncOperation SelectByIndexStatementType
        SelectFromMaterializedViewStatementType st = false
      <-> st <> SelectByIndexStatementType
          /\ st <> SelectFromMaterializedViewStatementType).
Proof.
  unfold PossibleAsyncOperation.
  destruct (Z.eqb_spec st SelectByIndexStatementType) as [E1|N1];
    destruct (Z.eqb_spec st SelectFromMaterializedViewStatementType) as [E2|N2];
    cbn; intuition congruence.
Qed.

End KindFacts.

Module GenFacts.

Import typedef.

Lemma set_index_length (out : list cell) (i : nat) (x : cell) :
  List.length (set_index out i x) = List.length out.
Proof.
  revert i. induction out as [|y out IH]; intros [|i]; cbn; auto.
Qed.

Lemma RandInt2_bounds (r : Rand) (min max : Z) :
  (min < max)%Z -> (min <= fst (RandInt2 r min max) < max)%Z.
Proof.
  intros H. unfold RandInt2, Intn. cbn [fst].
  pose proof (Z.mod_pos_bound (source r (drawn r)) (max - min) ltac:(lia)).
  lia.
Qed.

Section WithGen.

Variable SimpleType_GenValue :
  SimpleType -> Rand -> PartitionRangeConfig -> list cell * Rand.

(** The contract of the spec: a generated vector has [LenValue()] cells,
    one for a simple type; all that matters here is that it has a first. *)
Hypothesis SimpleType_GenValue_cell :
  forall st r p, fst (SimpleType_GenValue st r p) <> [].

Lemma GenValue_loop_length ct p todo : forall i out r,
  exists out' r',
    GenValue_loop SimpleType_GenValue ct p todo i out r = Ok (out', r')
    /\ List.length out' = List.length out.
Proof.
  induction todo as [|todo IH]; intros i out r; cbn [GenValue_loop].
  - now exists out, r.
  - pose proof (SimpleType_GenValue_cell (ValueType ct) r p) as Hne.
    destruct (SimpleType_GenValue (ValueType ct) r p) as [[|x xs] r1];
      [now elim Hne|].
    destruct (IH (S i) (set_index out i x) r1) as (out' & r' & Hl & Hlen).
    exists out', r'. split; [exact Hl|]. now rewrite Hlen, set_index_length.
Qed.

(** C8.  [GenValue] returns one cell, a slice, of at least one and at most
    [maxBagSize] elements. *)
Theorem BagType_GenValue_size ct r p :
  exists out r',
    BagType_GenValue SimpleType_GenValue ct r p = Ok ([VSlice out], r')
    /\ (1 <= Z.of_nat (List.length out) <= maxBagSize)%Z.
Proof.
  unfold BagType_GenValue.
  pose proof (@RandInt2_bounds r 1 (maxBagSize + 1) ltac:(reflexivity)) as Hb.
  destruct (RandInt2 r 1 (maxBagSize + 1)) as [count r1]. cbn [fst] in Hb.
  destruct (Z.ltb_spec count 0) as [Hneg|_]; [lia|].
  destruct (GenValue_loop_length ct p (Z.to_nat count) 0
              (repeat VNil (Z.to_nat count)) r1) as (out & r' & Hl & Hlen).
  rewrite Hl. exists out, r'. split; [reflexivity|].
  rewrite Hlen, repeat_length. lia.
Qed.

End WithGen.

Import examples.

Lemma BagType_GenValue_size_witness :
  exists out r',
    BagType_GenValue genInt list_of_int counting noBounds
    = Ok ([VSlice out], r')
    /\ (1 <= Z.of_nat (List.length out) <= maxBagSize)%Z.
Proof.
  apply (@BagType_GenValue_size genInt).
  intros st r p. discriminate.
Defined.

End GenFacts.

(* ===================================================================== *)
(** ** [ignore], [doMutate] and [mutate] *)
(* ===================================================================== *)

Module StoreFacts.

Import errors store.

Lemma error_eqb_refl (e : error) : error_eqb e e = true.
Proof.
  induction e as [| | |m|m c IH]; cbn; try reflexivity.
  - apply String.eqb_refl.
  - now rewrite String.eqb_refl, IH.
Qed.

Lemma error_eqb_eq (a b : error) : error_eqb a b = true <-> a = b.
Proof.
  split; [|intros ->; apply error_eqb_refl].
  revert b. induction a as [| | |m|m c IH]; intros [| | |n|n d]; cbn;
    try discriminate; try reflexivity.
  - intros H. apply String.eqb_eq in H. now subst.
  - intros H. apply andb_prop in H as [H1 H2].
    apply String.eqb_eq in H1. apply IH in H2. now subst.
Qed.

Lemma Is_refl (e : error) : Is e e = true.
Proof. destruct e; cbn [Is]; now rewrite error_eqb_refl. Qed.

Lemma doMutate_hands_on cs queryBody err w :
  ignore (Some err) = false ->
  fst (doMutate cs queryBody (Some err) w)
  = Some (Wrapf err (context_of cs queryBody)).
Proof. intros H. unfold doMutate. now rewrite H. Qed.

Lemma doMutate_swallows cs queryBody err w :
  ignore (Some err) = true ->
  fst (doMutate cs queryBody (Some err) w) = None.
Proof. intros H. unfold doMutate. now rewrite H. Qed.

(** C3 (as amended).  An error of an attempt that is, or wraps,
    context-canceled or deadline-exceeded is swallowed: [doMutate] returns
    nil.  Every other error is handed on, wrapped in the cluster and the
    query. *)
Theorem doMutate_swallows_context_errors cs queryBody err w :
  (err = Canceled \/ err = DeadlineExceeded ->
   fst (doMutate cs queryBody (Some err) w) = None)
  /\ (Is err Canceled = true \/ Is err DeadlineExceeded = true ->
      fst (doMutate cs queryBody (Some err) w) = None)
  /\ (Is err Canceled = false -> Is err DeadlineExceeded = false ->
      fst (doMutate cs queryBody (Some err) w)
      = Some (Wrapped (context_of cs queryBody) err)).
Proof.
  repeat split.
  - intros [-> | ->]; reflexivity.
  - intros H. apply doMutate_swallows. unfold ignore.
    destruct H as [-> | ->]; [reflexivity | now rewrite orb_true_r].
  - intros H1 H2. apply doMutate_hands_on. unfold ignore. now rewrite H1, H2.
Qed.

Lemma doMutate_swallows_context_errors_witness :
  fst (doMutate examples.sut "INSERT" (Some DeadlineExceeded) examples.quiet)
  = None
  /\ fst (doMutate examples.sut "INSERT"
            (Some (Wrapped "read tcp" Canceled)) examples.quiet)
     = None
  /\ fst (doMutate examples.sut "INSERT" (Some examples.timeout) examples.quiet)
     = Some (Wrapped "[cluster = test, query = 'INSERT']" examples.timeout).
Proof.
  split; [|split].
  - apply (doMutate_swallows_context_errors examples.sut "INSERT"
             DeadlineExceeded examples.quiet).
    right. reflexivity.
  - apply (doMutate_swallows_context_errors examples.sut "INSERT"
             (Wrapped "read tcp" Canceled) examples.quiet).
    left. reflexivity.
  - apply (doMutate_swallows_context_errors examples.sut "INSERT"
             examples.timeout examples.quiet); reflexivity.
Defined.

(** C3 as stated fails: an error that is neither of the two, but wraps
    one of them, is swallowed and not handed on. *)
Lemma doMutate_swallows_wrapped_cancel :
  Wrapped "read tcp" Canceled <> Canceled
  /\ Wrapped "read tcp" Canceled <> DeadlineExceeded
  /\ fst (doMutate examples.sut "INSERT"
            (Some (Wrapped "read tcp" Canceled)) examples.quiet)
     = None.
Proof. split; [|split]; [discriminate | discriminate | reflexivity]. Qed.

Section Retry.

Variable cs : cqlStore.
Variable queryBody : string.
Variable env : nat -> attempt.

Lemma doMutate_fails i w :
  fails (env i) ->
  exists err,
    exec (env i) = Some err
    /\ fst (doMutate cs queryBody (exec (env i)) w)
       = Some (Wrapf err (context_of cs queryBody)).
Proof.
  intros (err & He & Hi). exists err. split; [exact He|].
  rewrite He. now apply doMutate_hands_on.
Qed.

(** As long as the attempts fail and the timer is taken, the loop goes on:
    after [k] of them it is where it would be had it started at [i + k]. *)
Lemma mutate_loop_skips k : forall todo i err w,
  (forall j, i <= j < i + k -> fails_and_waits (env j)) ->
  exists err' w',
    mutate_loop cs queryBody env (k + todo) i err w
    = mutate_loop cs queryBody env todo (i + k) err' w'
    /\ (k = 0 -> err' = err)
    /\ (forall k', k = S k' ->
        exists e, exec (env (i + k')) = Some e
                  /\ err' = Some (Wrapf e (context_of cs queryBody))).
Proof.
  induction k as [|k IH]; intros todo i err w H.
  - exists err, w. rewrite Nat.add_0_r.
    split; [reflexivity | split; [reflexivity | discriminate]].
  - destruct (H i ltac:(lia)) as [Hf Hd].
    destruct (@doMutate_fails i w Hf) as (e & He & Hm).
    cbn [Nat.add mutate_loop].
    destruct (doMutate cs queryBody (exec (env i)) w) as [err1 w1].
    cbn [fst] in Hm. subst err1. rewrite Hd.
    destruct (IH todo (S i) (Some (Wrapf e (context_of cs queryBody))) w1)
      as (err' & w' & Hl & H0 & HS).
    { intros j Hj. apply H. lia. }
    exists err', w'. rewrite Hl. replace (S i + k) with (i + S k) by lia.
    split; [reflexivity | split; [discriminate|]].
    intros k' Hk. injection Hk as <-. destruct k as [|k''].
    + exists e. rewrite Nat.add_0_r. split; [exact He | now apply H0].
    + destruct (HS k'' eq_refl) as (e' & He' & Herr).
      exists e'. replace (i + S k'') with (S i + k'') by lia. now split.
Qed.

End Retry.

End StoreFacts.

(* ===================================================================== *)
(** ** [MixedJob] *)
(* ===================================================================== *)

Module WorkerFacts.

Import errors cmd GoIntFacts StoreFacts.
Local Open Scope Z_scope.

Lemma incr_exact c : roomy c -> GoInt.add c 1 = c + 1.
Proof.
  unfold roomy. rewrite max_int_eq. intros H. apply add_exact.
  unfold GoInt.in_range. rewrite max_int_eq, min_int_eq. lia.
Qed.

(** After [n] iterations no counter is above [n]: a worker whose bound
    [maxTests] is an [int] never wraps one. *)
Lemma MixedJob_after_bounds session n :
  Z.of_nat n <= GoInt.max_int ->
  let st := MixedJob_after session n in
  0 <= WriteOps st <= Z.of_nat n
  /\ 0 <= WriteErrors st <= Z.of_nat n
  /\ 0 <= ReadOps st <= Z.of_nat n
  /\ 0 <= ReadErrors st <= Z.of_nat n.
Proof.
  induction n as [|n IH]; intros Hn; cbv zeta.
  - cbn. lia.
  - specialize (IH ltac:(lia)). cbv zeta in IH.
    destruct IH as (H1 & H2 & H3 & H4).
    cbn [MixedJob_after]. unfold MixedJob_iter.
    destruct (MixedJob_after session n) as [wo we ro re].
    cbn [WriteOps WriteErrors ReadOps ReadErrors] in *.
    destruct (mutated (session n)) as [m|];
      destruct (checked (session n)) as [e|];
      try destruct (negb (error_eqb e ErrReadNoDataReturned));
      cbn [WriteOps WriteErrors ReadOps ReadErrors];
      rewrite ?incr_exact by (unfold roomy; lia); lia.
Qed.

Lemma MixedJob_after_roomy session n :
  Z.of_nat n < GoInt.max_int ->
  let st := MixedJob_after session n in
  roomy (WriteOps st) /\ roomy (WriteErrors st)
  /\ roomy (ReadOps st) /\ roomy (ReadErrors st).
Proof.
  intros Hn. pose proof (@MixedJob_after_bounds session n ltac:(lia)) as H.
  cbv zeta in *. unfold roomy. lia.
Qed.

(** C4.  In the iteration of index [n] of a worker ([n] below [maxTests]):
    a check that returns [ErrReadNoDataReturned] leaves [ReadOps] and
    [ReadErrors] as they were, a check that returns nil adds one to
    [ReadOps], and a check that returns any other error adds one to
    [ReadErrors]. *)
Theorem MixedJob_counts_reads maxTests session n :
  GoInt.in_range maxTests ->
  Z.of_nat n < maxTests ->
  let before := MixedJob_after session n in
  let after := MixedJob_after session (S n) in
  (checked (session n) = Some ErrReadNoDataReturned ->
   ReadOps after = ReadOps before /\ ReadErrors after = ReadErrors before)
  /\ (checked (session n) = None ->
      ReadOps after = ReadOps before + 1
      /\ ReadErrors after = ReadErrors before)
  /\ (forall err,
      checked (session n) = Some err -> err <> ErrReadNoDataReturned ->
      ReadOps after = ReadOps before
      /\ ReadErrors after = ReadErrors before + 1).
Proof.
  intros [_ Hmax] Hn. cbv zeta.
  destruct (@MixedJob_after_roomy session n ltac:(lia)) as (_ & _ & Hro & Hre).
  cbv zeta in *. cbn [MixedJob_after]. unfold MixedJob_iter.
  destruct (MixedJob_after session n) as [wo we ro re].
  cbn [WriteOps WriteErrors ReadOps ReadErrors] in *.
  split; [|split].
  - intros ->. cbn. now destruct (mutated (session n)).
  - intros ->. destruct (mutated (session n));
      cbn [ReadOps ReadErrors]; now rewrite incr_exact.
  - intros err -> Hne.
    assert (E : error_eqb err ErrReadNoDataReturned = false).
    { destruct (error_eqb err ErrReadNoDataReturned) eqn:E; [|reflexivity].
      apply error_eqb_eq in E. contradiction. }
    rewrite E. destruct (mutated (session n));
      cbn [negb ReadOps ReadErrors]; now rewrite incr_exact.
Qed.

Lemma MixedJob_counts_reads_witness :
  (ReadOps (MixedJob_after examples.mixed 2)
     = ReadOps (MixedJob_after examples.mixed 1)
   /\ ReadErrors (MixedJob_after examples.mixed 2)
      = ReadErrors (MixedJob_after examples.mixed 1))
  /\ (ReadOps (MixedJob_after examples.mixed 1)
        = ReadOps (MixedJob_after examples.mixed 0) + 1
      /\ ReadErrors (MixedJob_after examples.mixed 1)
         = ReadErrors (MixedJob_after examples.mixed 0))
  /\ (ReadOps (MixedJob_after examples.mixed 3)
        = ReadOps (MixedJob_after examples.mixed 2)
      /\ ReadErrors (MixedJob_after examples.mixed 3)
         = ReadErrors (MixedJob_after examples.mixed 2) + 1).
Proof.
  assert (R : GoInt.in_range 3) by (unfold GoInt.in_range; cbn; lia).
  split; [|split].
  - apply (@MixedJob_counts_reads 3 examples.mixed 1%nat R); [lia | reflexivity].
  - apply (@MixedJob_counts_reads 3 examples.mixed 0%nat R); [lia | reflexivity].
  - apply (@MixedJob_counts_reads 3 examples.mixed 2%nat R)
      with (err := ErrOther "rows differ"); [lia | reflexivity | discriminate].
Defined.

End WorkerFacts.

(* ===================================================================== *)
(** ** The retries of [mutate], as a worker counts them *)
(* ===================================================================== *)

Module RetryFacts.

Import errors store cmd GoIntFacts StoreFacts WorkerFacts.
Local Open Scope Z_scope.

(** The error [doMutate] returns does not depend on the counter and the
    log. *)
Lemma doMutate_error_world cs queryBody executed w w' :
  fst (doMutate cs queryBody executed w)
  = fst (doMutate cs queryBody executed w').
Proof.
  unfold doMutate. destruct executed as [err|]; [|reflexivity].
  now destruct (negb (ignore (Some err))).
Qed.

Lemma mutate_loop_error_world cs queryBody env todo : forall i err w w',
  fst (mutate_loop cs queryBody env todo i err w)
  = fst (mutate_loop cs queryBody env todo i err w').
Proof.
  induction todo as [|todo IH]; intros i err w w'.
  - cbn. now destruct (logger cs ErrorLevel).
  - cbn [mutate_loop].
    pose proof (doMutate_error_world cs queryBody (exec (env i)) w w') as E.
    destruct (doMutate cs queryBody (exec (env i)) w) as [e1 w1].
    destruct (doMutate cs queryBody (exec (env i)) w') as [e2 w2].
    cbn [fst] in E. subst e2. destruct e1 as [e|]; [|reflexivity].
    destruct (done (env i)); [reflexivity | apply IH].
Qed.

Lemma mutate_error_world cs queryBody env w w' :
  fst (mutate cs queryBody env w) = fst (mutate cs queryBody env w').
Proof. apply mutate_loop_error_world. Qed.

Section Retry.

Variable cs : cqlStore.
Variable queryBody : string.
Variable env : nat -> attempt.

(** When every attempt fails, whatever the [select] takes, the loop ends
    with an error. *)
Lemma mutate_loop_fails todo : forall i err w,
  (todo = 0%nat -> err <> None) ->
  (forall j, (i <= j < i + todo)%nat -> fails (env j)) ->
  exists e, fst (mutate_loop cs queryBody env todo i err w) = Some e.
Proof.
  induction todo as [|todo IH]; intros i err w H0 H.
  - destruct err as [e|]; [|now elim H0].
    exists e. cbn. now destruct (logger cs ErrorLevel).
  - destruct (@doMutate_fails cs queryBody env i w (H i ltac:(lia)))
      as (e & He & Hm).
    cbn [mutate_loop].
    destruct (doMutate cs queryBody (exec (env i)) w) as [err1 w1].
    cbn [fst] in Hm. subst err1.
    destruct (done (env i)) as [ctxErr|]; [now exists ctxErr|].
    apply IH; [discriminate|]. intros j Hj. apply H. lia.
Qed.

(** When every attempt fails, the loop ends at the first wait that the
    context ends, with the error of the context, or, when the timer ends
    every wait, after the last attempt, with its error, wrapped. *)
Lemma mutate_loop_fails_with todo : forall i err w,
  (forall j, (i <= j < i + todo)%nat -> fails (env j)) ->
  (exists j ctxErr,
      (i <= j < i + todo)%nat
      /\ (forall j', (i <= j' < j)%nat -> done (env j') = None)
      /\ done (env j) = Some ctxErr
      /\ fst (mutate_loop cs queryBody env todo i err w) = Some ctxErr)
  \/ ((forall j, (i <= j < i + todo)%nat -> done (env j) = None)
      /\ fst (mutate_loop cs queryBody env todo i err w)
         = match todo with
           | O => err
           | S t =>
               option_map (fun last => Wrapf last (context_of cs queryBody))
                          (exec (env (i + t)%nat))
           end).
Proof.
  induction todo as [|todo IH]; intros i err w H.
  - right. split; [intros j Hj; lia|].
    cbn. now destruct (logger cs ErrorLevel).
  - destruct (@doMutate_fails cs queryBody env i w (H i ltac:(lia)))
      as (e & He & Hm).
    cbn [mutate_loop].
    destruct (doMutate cs queryBody (exec (env i)) w) as [err1 w1].
    cbn [fst] in Hm. subst err1.
    destruct (done (env i)) as [ctxErr|] eqn:Ed.
    + left. exists i, ctxErr.
      split; [lia | split; [intros j' Hj'; lia | split; [exact Ed | reflexivity]]].
    + destruct (IH (S i) (Some (Wrapf e (context_of cs queryBody))) w1)
        as [(j & ctxErr & Hj & Hbefore & Hd & Hr) | (Hall & Hr)].
      { intros j Hj. apply H. lia. }
      * left. exists j, ctxErr. split; [lia|]. split; [|split; assumption].
        intros j' Hj'. destruct (Nat.eq_dec j' i) as [->|Hne]; [exact Ed|].
        apply Hbefore. lia.
      * right. split.
        { intros j Hj. destruct (Nat.eq_dec j i) as [->|Hne]; [exact Ed|].
          apply Hall. lia. }
        rewrite Hr. destruct todo as [|t].
        -- rewrite Nat.add_0_r, He. reflexivity.
        -- now replace (i + S t)%nat with (S i + t)%nat by lia.
Qed.

(** What a worker counts for a mutation that returns [err], in the
    iteration of index [n]. *)
Lemma MixedJob_counts_writes maxTests session n :
  GoInt.in_range maxTests ->
  Z.of_nat n < maxTests ->
  WriteErrors (MixedJob_after session (S n))
  = WriteErrors (MixedJob_after session n)
    + match mutated (session n) with Some _ => 1 | None => 0 end.
Proof.
  intros [_ Hmax] Hn.
  destruct (@MixedJob_after_roomy session n ltac:(lia)) as (_ & Hwe & _ & _).
  cbv zeta in *. cbn [MixedJob_after]. unfold MixedJob_iter.
  destruct (MixedJob_after session n) as [wo we ro re].
  cbn [WriteOps WriteErrors ReadOps ReadErrors] in *.
  destruct (mutated (session n)) as [m|];
    destruct (checked (session n)) as [e|];
    try destruct (negb (error_eqb e ErrReadNoDataReturned));
    cbn [WriteErrors]; rewrite ?incr_exact by assumption; lia.
Qed.

(** What a worker that dispatches through [mutate] counts in the
    iteration whose mutation is the one at hand. *)
Lemma dispatched_counts_writes w maxTests queries envs checks w0 n :
  GoInt.in_range maxTests ->
  Z.of_nat n < maxTests ->
  queries n = queryBody -> envs n = env ->
  WriteErrors (MixedJob_after (dispatched cs queries envs checks w0) (S n))
  = WriteErrors (MixedJob_after (dispatched cs queries envs checks w0) n)
    + match fst (mutate cs queryBody env w) with Some _ => 1 | None => 0 end.
Proof.
  intros Hr Hn Hq He.
  rewrite (@MixedJob_counts_writes maxTests _ n Hr Hn).
  change (mutated (dispatched cs queries envs checks w0 n))
    with (fst (mutate cs (queries n) (envs n)
                 (dispatch_world cs queries envs w0 n))).
  rewrite Hq, He.
  now rewrite (mutate_error_world cs queryBody env
                 (dispatch_world cs queries envs w0 n) w).
Qed.

(** C2 (as amended).  When the first [k] attempts fail, [k] below
    [maxRetriesMutate], the timer is what each wait ends on, and the next
    attempt succeeds, [mutate] returns nil and the worker that dispatched
    the mutation counts no [WriteError].  When all [maxRetriesMutate]
    attempts fail and the timer is what each wait ends on, [mutate]
    returns the error of the last attempt (wrapped by [doMutate]).  When
    all attempts fail, whatever the waits end on, [mutate] returns an
    error: the error of the context at the first wait the context ends,
    or, when the timer ends every wait, the wrapped error of the last
    attempt; and the worker counts exactly one [WriteError]. *)
Theorem mutate_retries w :
  (forall k,
     Z.of_nat k < maxRetriesMutate cs ->
     (forall j, (j < k)%nat -> fails_and_waits (env j)) ->
     exec (env k) = None ->
     fst (mutate cs queryBody env w) = None
     /\ forall maxTests queries envs checks w0 n,
          GoInt.in_range maxTests -> Z.of_nat n < maxTests ->
          queries n = queryBody -> envs n = env ->
          let session := dispatched cs queries envs checks w0 in
          WriteErrors (MixedJob_after session (S n))
          = WriteErrors (MixedJob_after session n))
  /\ (1 <= maxRetriesMutate cs ->
      (forall j, Z.of_nat j < maxRetriesMutate cs -> fails_and_waits (env j)) ->
      exists last,
        exec (env (Z.to_nat (maxRetriesMutate cs) - 1)) = Some last
        /\ fst (mutate cs queryBody env w)
           = Some (Wrapf last (context_of cs queryBody)))
  /\ (1 <= maxRetriesMutate cs ->
      (forall j, Z.of_nat j < maxRetriesMutate cs -> fails (env j)) ->
      exists err,
        fst (mutate cs queryBody env w) = Some err
        /\ ((exists j,
               Z.of_nat j < maxRetriesMutate cs
               /\ (forall j', (j' < j)%nat -> done (env j') = None)
               /\ done (env j) = Some err)
            \/ ((forall j, Z.of_nat j < maxRetriesMutate cs ->
                           done (env j) = None)
                /\ exists last,
                     exec (env (Z.to_nat (maxRetriesMutate cs) - 1)) = Some last
                     /\ err = Wrapf last (context_of cs queryBody)))
        /\ forall maxTests queries envs checks w0 n,
             GoInt.in_range maxTests -> Z.of_nat n < maxTests ->
             queries n = queryBody -> envs n = env ->
             let session := dispatched cs queries envs checks w0 in
             WriteErrors (MixedJob_after session (S n))
             = WriteErrors (MixedJob_after session n) + 1).
Proof.
  split; [|split].
  - intros k Hk Hf Hs.
    assert (Hm : fst (mutate cs queryBody env w) = None).
    { unfold mutate.
      replace (Z.to_nat (maxRetriesMutate cs))
        with (k + S (Z.to_nat (maxRetriesMutate cs) - S k))%nat by lia.
      destruct (@mutate_loop_skips cs queryBody env k
                  (S (Z.to_nat (maxRetriesMutate cs) - S k)) 0%nat None w)
        as (err' & w' & Hl & _ & _).
      { intros j Hj. apply Hf. lia. }
      rewrite Hl. cbn [mutate_loop Nat.add]. rewrite Hs. reflexivity. }
    split; [exact Hm|].
    intros maxTests queries envs checks w0 n Hr Hn Hq He. cbv zeta.
    rewrite (@dispatched_counts_writes w maxTests queries envs checks w0 n
               Hr Hn Hq He), Hm.
    lia.
  - intros H1 Hf. unfold mutate.
    destruct (Z.to_nat (maxRetriesMutate cs)) as [|t] eqn:E; [lia|].
    destruct (@mutate_loop_skips cs queryBody env (S t) 0%nat 0%nat None w)
      as (err' & w' & Hl & _ & HS).
    { intros j Hj. apply Hf. lia. }
    destruct (HS t eq_refl) as (last & Hlast & Herr).
    exists last. rewrite Nat.add_0_r in Hl. rewrite Hl.
    replace (S t - 1)%nat with (0 + t)%nat by lia.
    split; [exact Hlast|]. subst err'. cbn.
    now destruct (logger cs ErrorLevel).
  - intros H1 Hf.
    assert (Hfrom : exists err,
               fst (mutate cs queryBody env w) = Some err
               /\ ((exists j,
                      Z.of_nat j < maxRetriesMutate cs
                      /\ (forall j', (j' < j)%nat -> done (env j') = None)
                      /\ done (env j) = Some err)
                   \/ ((forall j, Z.of_nat j < maxRetriesMutate cs ->
                                  done (env j) = None)
                       /\ exists last,
                            exec (env (Z.to_nat (maxRetriesMutate cs) - 1))
                            = Some last
                            /\ err = Wrapf last (context_of cs queryBody)))).
    { unfold mutate.
      destruct (Z.to_nat (maxRetriesMutate cs)) as [|t] eqn:E; [lia|].
      destruct (@mutate_loop_fails_with (S t) 0%nat None w)
        as [(j & ctxErr & Hj & Hbefore & Hd & Hr) | (Hall & Hr)].
      { intros j Hj. apply Hf. lia. }
      - exists ctxErr. split; [exact Hr|]. left. exists j.
        split; [lia|]. split; [|exact Hd].
        intros j' Hj'. apply Hbefore. lia.
      - destruct (Hf t ltac:(lia)) as (last & Hlast & _).
        exists (Wrapf last (context_of cs queryBody)). split.
        + rewrite Hr. cbn [Nat.add]. now rewrite Hlast.
        + right. split; [intros j Hj; apply Hall; lia|].
          exists last. replace (S t - 1)%nat with t by lia. now split. }
    destruct Hfrom as (err & Herr & Hor).
    exists err. split; [exact Herr|]. split; [exact Hor|].
    intros maxTests queries envs checks w0 n Hr Hn Hq He. cbv zeta.
    rewrite (@dispatched_counts_writes w maxTests queries envs checks w0 n
               Hr Hn Hq He), Herr.
    reflexivity.
Qed.

End Retry.

Import examples.

Lemma mutate_retries_witness :
  (fst (mutate sut "INSERT" failTwice quiet) = None
   /\ WriteErrors (MixedJob_after retrying 1)
      = WriteErrors (MixedJob_after retrying 0))
  /\ fst (mutate sut "INSERT" failAlways quiet)
     = Some (Wrapped "[cluster = test, query = 'INSERT']" timeout)
  /\ exists err,
       fst (mutate sut "INSERT" failThenCancelled quiet) = Some err
       /\ WriteErrors (MixedJob_after retrying 3)
          = WriteErrors (MixedJob_after retrying 2) + 1.
Proof.
  assert (F : forall i, fails (mkAttempt (Some timeout) i)).
  { intros i. exists timeout. split; reflexivity. }
  assert (R : GoInt.in_range 3) by (unfold GoInt.in_range; cbn; lia).
  split; [|split].
  - assert (Hk : Z.of_nat 2 < maxRetriesMutate sut) by (cbn; lia).
    assert (Hf : forall j, (j < 2)%nat -> fails_and_waits (failTwice j)).
    { intros [|[|j]] Hj; [split; [apply F | reflexivity] ..| lia]. }
    destruct (proj1 (mutate_retries sut "INSERT" failTwice quiet)
                2%nat Hk Hf eq_refl) as [Hm Hw].
    split; [exact Hm|].
    apply (Hw 3 (fun _ => "INSERT"%string)
              (fun n => match n with
                        | 0%nat => failTwice
                        | 1%nat => failAlways
                        | _ => failThenCancelled
                        end)
              (fun _ => None) quiet 0%nat R); [lia | reflexivity | reflexivity].
  - assert (H1 : 1 <= maxRetriesMutate sut) by (cbn; lia).
    assert (H2 : forall j, Z.of_nat j < maxRetriesMutate sut ->
                           fails_and_waits (failAlways j)).
    { intros j _. split; [apply F | reflexivity]. }
    destruct (proj1 (proj2 (mutate_retries sut "INSERT" failAlways quiet)) H1 H2)
      as (last & Hl & Hm).
    injection Hl as <-. exact Hm.
  - assert (H1 : 1 <= maxRetriesMutate sut) by (cbn; lia).
    assert (H2 : forall j, Z.of_nat j < maxRetriesMutate sut ->
                           fails (failThenCancelled j)).
    { intros j _. apply F. }
    destruct (proj2 (proj2 (mutate_retries sut "INSERT" failThenCancelled quiet))
                H1 H2) as (err & Hm & _ & Hw).
    exists err. split; [exact Hm|].
    apply (Hw 3 (fun _ => "INSERT"%string)
              (fun n => match n with
                        | 0%nat => failTwice
                        | 1%nat => failAlways
                        | _ => failThenCancelled
                        end)
              (fun _ => None) quiet 2%nat R); [lia | reflexivity | reflexivity].
Defined.

(** The worker of the example: no [WriteError] for the mutation that
    succeeds at its third attempt, one for each of the two that fail. *)
Lemma retrying_counts :
  map (fun n => WriteErrors (MixedJob_after retrying n)) [0; 1; 2; 3]%nat
  = [0; 0; 1; 2].
Proof. reflexivity. Qed.

(** C2 as stated fails: the one attempt there is fails, the context is
    cancelled while [mutate] waits, and what [mutate] returns is the error
    of the context, not the error of the last attempt. *)
Lemma mutate_cancelled_while_waiting :
  maxRetriesMutate sutOnce = 1
  /\ exec (failThenCancelled 0) = Some timeout
  /\ ignore (Some timeout) = false
  /\ fst (mutate sutOnce "INSERT" failThenCancelled quiet) = Some Canceled
  /\ Canceled <> timeout
  /\ Canceled <> Wrapf timeout (context_of sutOnce "INSERT").
Proof. repeat split; discriminate. Qed.

End RetryFacts.

(* ===================================================================== *)
(** ** The ranges of [runJob] *)
(* ===================================================================== *)

Module RangeFacts.

Import cmd GoIntFacts.
Local Open Scope Z_scope.

Lemma in_range_nonneg z : 0 <= z <= GoInt.max_int -> GoInt.in_range z.
Proof. unfold GoInt.in_range. rewrite min_int_eq. lia. Qed.

Lemma runJob_range_exact K i :
  1 <= K -> 0 <= i -> (i + 1) * K <= GoInt.max_int ->
  runJob_range K i = mkPartitionRange (i * K) ((i + 1) * K).
Proof.
  intros HK Hi Hmax. unfold runJob_range.
  rewrite mul_exact by (apply in_range_nonneg; nia).
  rewrite !add_exact by (apply in_range_nonneg; nia).
  f_equal; lia.
Qed.

Lemma runJob_spawn_length K todo : forall i,
  List.length (runJob_spawn K todo i) = todo.
Proof. induction todo as [|todo IH]; intros i; cbn; [reflexivity | now rewrite IH]. Qed.

(** The worker started [k] rounds after index [i] gets the range of index
    [i + k], as long as no product wraps. *)
Lemma runJob_spawn_nth K todo : forall i k d,
  1 <= K -> 0 <= i -> (i + Z.of_nat todo) * K <= GoInt.max_int ->
  (k < todo)%nat ->
  nth k (runJob_spawn K todo i) d
  = mkPartitionRange ((i + Z.of_nat k) * K) ((i + Z.of_nat k + 1) * K).
Proof.
  induction todo as [|todo IH]; intros i k d HK Hi Hmax Hk; [lia|].
  cbn [runJob_spawn]. destruct k as [|k].
  - cbn [nth]. rewrite runJob_range_exact by nia. f_equal; lia.
  - cbn [nth]. rewrite add_exact by (apply in_range_nonneg; nia).
    rewrite IH by (try nia; lia). f_equal; lia.
Qed.

(** C5 (as amended).  With [N] workers and [K] keys for each, [N] and [K]
    at least one and [N * K] an [int]: worker [i] gets the range
    [[i*K, (i+1)*K)]; two workers own no seed in common; and the seeds
    some worker owns are those of [[0, N*K)]. *)
Theorem runJob_ranges_partition N K :
  1 <= N -> 1 <= K -> N * K <= GoInt.max_int ->
  let ranges := runJob_ranges N K in
  let d := mkPartitionRange 0 0 in
  List.length ranges = Z.to_nat N
  /\ (forall i, (i < Z.to_nat N)%nat ->
        nth i ranges d
        = mkPartitionRange (Z.of_nat i * K) ((Z.of_nat i + 1) * K))
  /\ (forall i j x, (i < Z.to_nat N)%nat -> (j < Z.to_nat N)%nat -> i <> j ->
        owns (nth i ranges d) x -> owns (nth j ranges d) x -> False)
  /\ (forall x, 0 <= x < N * K
                <-> exists i, (i < Z.to_nat N)%nat /\ owns (nth i ranges d) x).
Proof.
  intros HN HK Hmax. cbv zeta.
  assert (Hnth : forall i, (i < Z.to_nat N)%nat ->
            nth i (runJob_ranges N K) (mkPartitionRange 0 0)
            = mkPartitionRange (Z.of_nat i * K) ((Z.of_nat i + 1) * K)).
  { intros i Hi. unfold runJob_ranges.
    rewrite runJob_spawn_nth by (try assumption; lia). f_equal; lia. }
  split; [apply runJob_spawn_length|].
  split; [exact Hnth|]. split.
  - intros i j x Hi Hj Hne. rewrite !Hnth by assumption.
    unfold owns. cbn [Min Max]. intros H1 H2.
    assert (Z.of_nat i < Z.of_nat j \/ Z.of_nat j < Z.of_nat i) as [L|L] by lia; nia.
  - intros x. split.
    + intros Hx. exists (Z.to_nat (x / K)).
      pose proof (Z.div_lt_upper_bound x K N ltac:(lia) ltac:(lia)).
      pose proof (Z.div_pos x K ltac:(lia) ltac:(lia)).
      pose proof (Z.mul_div_le x K ltac:(lia)).
      pose proof (Z.mul_succ_div_gt x K ltac:(lia)).
      split; [lia|]. rewrite Hnth by lia.
      unfold owns. cbn [Min Max]. rewrite Z2Nat.id by assumption. lia.
    + intros (i & Hi & Ho). rewrite Hnth in Ho by assumption.
      unfold owns in Ho. cbn [Min Max] in Ho. nia.
Qed.

Lemma runJob_ranges_partition_witness :
  runJob_ranges 2 3 = [mkPartitionRange 0 3; mkPartitionRange 3 6]
  /\ nth 1 (runJob_ranges 2 3) (mkPartitionRange 0 0)
     = mkPartitionRange (Z.of_nat 1 * 3) ((Z.of_nat 1 + 1) * 3).
Proof.
  split; [reflexivity|].
  apply (@runJob_ranges_partition 2 3); [lia | lia | cbn; lia | cbn; lia].
Defined.

(** C5 as stated fails: with two workers and [2^62] keys for each, the
    upper bound of the second range wraps; the range is not
    [[2^62, 2^63)] and owns no seed. *)
Lemma runJob_ranges_wrap :
  nth 1 (runJob_ranges 2 (2 ^ 62)) (mkPartitionRange 0 0)
  = mkPartitionRange (2 ^ 62) (- 2 ^ 63)
  /\ mkPartitionRange (2 ^ 62) (- 2 ^ 63)
     <> mkPartitionRange (1 * 2 ^ 62) ((1 + 1) * 2 ^ 62)
  /\ ~ owns (nth 1 (runJob_ranges 2 (2 ^ 62)) (mkPartitionRange 0 0)) (2 ^ 62).
Proof.
  split; [reflexivity|]. split; [discriminate|].
  intros [_ H]. vm_compute in H. discriminate H.
Qed.

End RangeFacts.

(* ===================================================================== *)
(** ** More on [runJob], [collectResults] and [MixedJob] *)
(* ===================================================================== *)

Module TotalFacts.

Import errors cmd cmd_rest GoIntFacts WorkerFacts.
Local Open Scope Z_scope.

Lemma wrap_add_l a b : GoInt.wrap (GoInt.wrap a + b) = GoInt.wrap (a + b).
Proof.
  unfold GoInt.wrap.
  replace ((a - GoInt.min_int) mod GoInt.modulus + GoInt.min_int + b
           - GoInt.min_int)
    with ((a - GoInt.min_int) mod GoInt.modulus + b) by lia.
  rewrite Zplus_mod_idemp_l. f_equal. f_equal. lia.
Qed.

(** Adding two numbers to an [int], one after the other, gives the same
    [int] in either order, wrapped or not. *)
Lemma add_add_swap a b c :
  GoInt.add (GoInt.add a b) c = GoInt.add (GoInt.add a c) b.
Proof.
  unfold GoInt.add. rewrite !wrap_add_l. f_equal. lia.
Qed.

Lemma collectResults_swap one other sum :
  collectResults one (collectResults other sum)
  = collectResults other (collectResults one sum).
Proof.
  unfold collectResults. cbn [WriteOps WriteErrors ReadOps ReadErrors].
  f_equal; apply add_add_swap.
Qed.

Lemma collect_from_permutation results results' :
  Permutation results results' ->
  forall sum,
    fold_left (fun testRes res => collectResults res testRes) results sum
    = fold_left (fun testRes res => collectResults res testRes) results' sum.
Proof.
  induction 1 as [|x l l' _ IH|x y l|l l' l'' _ IH1 _ IH2]; intros sum; cbn.
  - reflexivity.
  - apply IH.
  - now rewrite collectResults_swap.
  - now rewrite IH1, IH2.
Qed.

(** X1.  The total [runJob] prints does not depend on the order in which
    the workers deliver their results on the channel, wrapped sums
    included. *)
Theorem runJob_collect_any_order results results' :
  Permutation results results' ->
  runJob_collect results = runJob_collect results'.
Proof.
  intros H. unfold runJob_collect. now apply collect_from_permutation.
Qed.

Lemma runJob_collect_any_order_witness :
  runJob_collect [mkStatus 1 0 1 0; mkStatus 2 1 0 1]
  = runJob_collect [mkStatus 2 1 0 1; mkStatus 1 0 1 0].
Proof. apply runJob_collect_any_order. apply perm_swap. Defined.

Lemma tally_bounds f n : 0 <= tally f n <= Z.of_nat n.
Proof.
  induction n as [|n IH]; [cbn; lia|].
  cbn [tally]. destruct (f n); lia.
Qed.

(** What the counters of a worker hold after [n] iterations. *)
Lemma MixedJob_after_tally session n :
  Z.of_nat n <= GoInt.max_int ->
  MixedJob_after session n
  = mkStatus (Z.of_nat n) (tally (mutate_failed session) n)
             (tally (check_passed session) n)
             (tally (check_failed session) n).
Proof.
  induction n as [|n IH]; intros Hn; [reflexivity|].
  cbn [MixedJob_after]. rewrite IH by lia. unfold MixedJob_iter.
  cbn [WriteOps WriteErrors ReadOps ReadErrors tally].
  pose proof (tally_bounds (mutate_failed session) n).
  pose proof (tally_bounds (check_passed session) n).
  pose proof (tally_bounds (check_failed session) n).
  change (mutate_failed session n)
    with (match mutated (session n) with Some _ => true | None => false end).
  change (check_passed session n)
    with (match checked (session n) with Some _ => false | None => true end).
  change (check_failed session n)
    with (match checked (session n) with
          | Some err => negb (error_eqb err ErrReadNoDataReturned)
          | None => false
          end).
  destruct (mutated (session n)) as [m|];
    destruct (checked (session n)) as [e|];
    try destruct (error_eqb e ErrReadNoDataReturned);
    cbn [negb WriteOps WriteErrors ReadOps ReadErrors];
    rewrite ?incr_exact by (unfold roomy; lia);
    f_equal; lia.
Qed.

Lemma tally_split session n :
  tally (check_passed session) n + tally (check_failed session) n
  + tally (check_empty session) n = Z.of_nat n.
Proof.
  induction n as [|n IH]; [reflexivity|].
  cbn [tally].
  change (check_passed session n)
    with (match checked (session n) with Some _ => false | None => true end).
  change (check_failed session n)
    with (match checked (session n) with
          | Some err => negb (error_eqb err ErrReadNoDataReturned)
          | None => false
          end).
  change (check_empty session n)
    with (match checked (session n) with
          | Some err => error_eqb err ErrReadNoDataReturned
          | None => false
          end).
  destruct (checked (session n)) as [e|];
    [destruct (error_eqb e ErrReadNoDataReturned)|]; cbn [negb]; lia.
Qed.

(** X2.  The [Status] a worker sends accounts for every iteration:
    [WriteOps] is the number of iterations, [WriteErrors] the number of
    mutations that returned an error, [ReadOps] the number of checks that
    returned nil, [ReadErrors] the number of checks that returned an error
    other than [ErrReadNoDataReturned]; with the checks that found no
    data, the reads add up to the iterations. *)
Theorem MixedJob_accounts maxTests session :
  GoInt.in_range maxTests ->
  let n := Z.to_nat maxTests in
  let st := MixedJob maxTests session in
  WriteOps st = Z.of_nat n
  /\ WriteErrors st = tally (mutate_failed session) n
  /\ ReadOps st = tally (check_passed session) n
  /\ ReadErrors st = tally (check_failed session) n
  /\ ReadOps st + ReadErrors st + tally (check_empty session) n = WriteOps st.
Proof.
  intros [_ Hmax]. cbv zeta. unfold MixedJob.
  rewrite MixedJob_after_tally by (rewrite max_int_eq in *; lia).
  cbn [WriteOps WriteErrors ReadOps ReadErrors].
  repeat split. apply tally_split.
Qed.

Lemma MixedJob_accounts_witness :
  WriteOps (MixedJob 3 examples.mixed) = 3
  /\ WriteErrors (MixedJob 3 examples.mixed) = 0
  /\ ReadOps (MixedJob 3 examples.mixed) = 1
  /\ ReadErrors (MixedJob 3 examples.mixed) = 1
  /\ ReadOps (MixedJob 3 examples.mixed) + ReadErrors (MixedJob 3 examples.mixed)
     + 1 = WriteOps (MixedJob 3 examples.mixed).
Proof.
  apply (@MixedJob_accounts 3 examples.mixed).
  unfold GoInt.in_range. cbn. lia.
Defined.

(** X3.  Whatever the session answers, a worker never reports more errors
    than operations: [WriteErrors] is at most [WriteOps], [ReadOps] and
    [ReadErrors] together are at most [WriteOps], and [WriteOps] is
    [maxTests], or 0 when [maxTests] is negative. *)
Theorem MixedJob_errors_within_ops maxTests session :
  GoInt.in_range maxTests ->
  let st := MixedJob maxTests session in
  WriteOps st = Z.max 0 maxTests
  /\ 0 <= WriteErrors st <= WriteOps st
  /\ 0 <= ReadOps st
  /\ 0 <= ReadErrors st
  /\ ReadOps st + ReadErrors st <= WriteOps st.
Proof.
  intros [_ Hmax]. cbv zeta. unfold MixedJob.
  rewrite MixedJob_after_tally by (rewrite max_int_eq in *; lia).
  cbn [WriteOps WriteErrors ReadOps ReadErrors].
  pose proof (tally_bounds (mutate_failed session) (Z.to_nat maxTests)).
  pose proof (tally_bounds (check_passed session) (Z.to_nat maxTests)).
  pose proof (tally_bounds (check_failed session) (Z.to_nat maxTests)).
  pose proof (tally_bounds (check_empty session) (Z.to_nat maxTests)).
  pose proof (tally_split session (Z.to_nat maxTests)).
  lia.
Qed.

Lemma MixedJob_errors_within_ops_witness :
  WriteOps (MixedJob 3 examples.failing) = Z.max 0 3
  /\ 0 <= WriteErrors (MixedJob 3 examples.failing)
     <= WriteOps (MixedJob 3 examples.failing)
  /\ 0 <= ReadOps (MixedJob 3 examples.failing)
  /\ 0 <= ReadErrors (MixedJob 3 examples.failing)
  /\ ReadOps (MixedJob 3 examples.failing)
     + ReadErrors (MixedJob 3 examples.failing)
     <= WriteOps (MixedJob 3 examples.failing).
Proof.
  apply (@MixedJob_errors_within_ops 3 examples.failing).
  unfold GoInt.in_range. cbn. lia.
Defined.

(** The worker of the witness: three mutations, each an error, and three
    checks that find no data; and a worker with a negative bound. *)
Lemma MixedJob_failing_values :
  MixedJob 3 examples.failing = mkStatus 3 3 0 0
  /\ MixedJob 3 examples.mixed = mkStatus 3 0 1 1
  /\ MixedJob (-2) examples.failing = mkStatus 0 0 0 0.
Proof. repeat split. Qed.

(** A [Status] whose counters lie between 0 and [m]. *)
Lemma MixedJob_within maxTests session :
  GoInt.in_range maxTests -> 0 <= maxTests ->
  let st := MixedJob maxTests session in
  WriteOps st = maxTests
  /\ 0 <= WriteErrors st <= maxTests
  /\ 0 <= ReadOps st <= maxTests
  /\ 0 <= ReadErrors st <= maxTests.
Proof.
  intros [_ Hmax] H0. cbv zeta. unfold MixedJob.
  rewrite MixedJob_after_tally by (rewrite max_int_eq in *; lia).
  cbn [WriteOps WriteErrors ReadOps ReadErrors].
  pose proof (tally_bounds (mutate_failed session) (Z.to_nat maxTests)).
  pose proof (tally_bounds (check_passed session) (Z.to_nat maxTests)).
  pose proof (tally_bounds (check_failed session) (Z.to_nat maxTests)).
  lia.
Qed.

Lemma collect_workers maxTests sessions : forall sum k,
  GoInt.in_range maxTests -> 0 <= maxTests -> 0 <= k ->
  (k + Z.of_nat (List.length sessions)) * maxTests <= GoInt.max_int ->
  WriteOps sum = k * maxTests ->
  0 <= WriteErrors sum <= k * maxTests ->
  0 <= ReadOps sum <= k * maxTests ->
  0 <= ReadErrors sum <= k * maxTests ->
  let total :=
    fold_left (fun testRes res => collectResults res testRes)
              (map (MixedJob maxTests) sessions) sum in
  let n := k + Z.of_nat (List.length sessions) in
  WriteOps total = n * maxTests
  /\ 0 <= WriteErrors total <= n * maxTests
  /\ 0 <= ReadOps total <= n * maxTests
  /\ 0 <= ReadErrors total <= n * maxTests.
Proof.
  induction sessions as [|session sessions IH];
    intros sum k Hr H0 Hk Hmax Hwo Hwe Hro Hre; cbv zeta.
  - cbn [map fold_left List.length]. rewrite Z.add_0_r. tauto.
  - cbn [map fold_left]. cbn [List.length] in *.
    destruct (@MixedJob_within maxTests session Hr H0) as (Ewo & Ewe & Ero & Ere).
    cbv zeta in *.
    specialize (IH (collectResults (MixedJob maxTests session) sum) (k + 1)).
    cbv zeta in IH.
    replace (k + 1 + Z.of_nat (List.length sessions))
      with (k + Z.of_nat (S (List.length sessions))) in IH by lia.
    rewrite max_int_eq in *.
    assert (Hin : forall a b, 0 <= a <= k * maxTests -> 0 <= b <= maxTests ->
                    GoInt.add a b = a + b).
    { intros a b Ha Hb. apply add_exact. unfold GoInt.in_range.
      rewrite max_int_eq, min_int_eq. nia. }
    apply IH; try assumption; try lia; unfold collectResults;
      cbn [WriteOps WriteErrors ReadOps ReadErrors];
      rewrite Hin by lia; nia.
Qed.

(** X4.  With [N] workers of [maxTests] iterations each, [N * maxTests] an
    [int]: in whatever order the results arrive, the total [WriteOps] of
    [runJob] is [N * maxTests], and no counter of the total has wrapped:
    each lies between 0 and [N * maxTests]. *)
Theorem runJob_total_of_workers maxTests sessions results :
  GoInt.in_range maxTests -> 0 <= maxTests ->
  Z.of_nat (List.length sessions) * maxTests <= GoInt.max_int ->
  Permutation results (map (MixedJob maxTests) sessions) ->
  let total := runJob_collect results in
  let ops := Z.of_nat (List.length sessions) * maxTests in
  WriteOps total = ops
  /\ 0 <= WriteErrors total <= ops
  /\ 0 <= ReadOps total <= ops
  /\ 0 <= ReadErrors total <= ops.
Proof.
  intros Hr H0 Hmax Hp. cbv zeta. unfold runJob_collect.
  rewrite (collect_from_permutation Hp).
  apply (@collect_workers maxTests sessions (mkStatus 0 0 0 0) 0);
    try assumption; cbn [WriteOps WriteErrors ReadOps ReadErrors]; lia.
Qed.

Lemma runJob_total_of_workers_witness :
  WriteOps (runJob_collect [MixedJob 3 examples.failing; MixedJob 3 examples.mixed])
  = Z.of_nat 2 * 3.
Proof.
  apply (@runJob_total_of_workers 3 [examples.mixed; examples.failing]).
  - unfold GoInt.in_range. cbn. lia.
  - lia.
  - cbn. lia.
  - apply perm_swap.
Defined.

End TotalFacts.

(* ===================================================================== *)
(** ** [run]: the schema before the job *)
(* ===================================================================== *)

Module RunFacts.

Import errors cmd_rest.

Lemma mutations_app (a b : list event) :
  mutations (a ++ b) = mutations a ++ mutations b.
Proof.
  induction a as [|e a IH]; [reflexivity|].
  destruct e; cbn; now rewrite IH.
Qed.

Lemma first_error_app answer a : forall k b,
  first_error answer k (a + b)
  = match first_error answer k a with
    | Some i => Some i
    | None => first_error answer (k + a) b
    end.
Proof.
  induction a as [|a IH]; intros k b; cbn [first_error Nat.add].
  - now rewrite Nat.add_0_r.
  - destruct (answer k); [reflexivity|].
    rewrite IH. now replace (S k + a) with (k + S a) by lia.
Qed.

(** One loop over statements: it never starts the job, it sends the
    statements up to the first the session refuses, and it says whether
    all were accepted. *)
Lemma run_stmts_spec verbose answer stmts : forall calls,
  let r := run_stmts verbose answer calls stmts in
  ~ In RunJob (fst (fst r))
  /\ match first_error answer calls (List.length stmts) with
     | None =>
         snd r = true
         /\ snd (fst r) = calls + List.length stmts
         /\ mutations (fst (fst r)) = stmts
     | Some k =>
         snd r = false
         /\ calls <= k
         /\ k < calls + List.length stmts
         /\ mutations (fst (fst r)) = firstn (S (k - calls)) stmts
     end.
Proof.
  induction stmts as [|stmt stmts IH]; intros calls; cbv zeta.
  - cbn. split; [tauto|]. repeat split. lia.
  - cbn [run_stmts List.length first_error].
    assert (Hecho : forall events : list event,
              ~ In RunJob events ->
              ~ In RunJob ((if verbose then [Println stmt] else []) ++ events)).
    { intros events H. destruct verbose; cbn; [intros [D|D]|]; try discriminate;
        tauto. }
    assert (Hmut : forall events : list event,
              mutations ((if verbose then [Println stmt] else []) ++ events)
              = mutations events).
    { intros events. now destruct verbose. }
    destruct (answer calls) as [err|] eqn:E.
    + cbn [fst snd]. split.
      * apply Hecho. cbn. intros [D|[D|D]]; try discriminate; tauto.
      * rewrite Hmut, Nat.sub_diag. cbn. repeat split; lia.
    + specialize (IH (S calls)). cbv zeta in IH.
      destruct (run_stmts verbose answer (S calls) stmts) as [[events calls'] ok].
      cbn [fst snd] in *. destruct IH as [Hno IH]. split.
      * apply Hecho. cbn. intros [D|D]; [discriminate | tauto].
      * rewrite Hmut. cbn [mutations].
        destruct (first_error answer (S calls) (List.length stmts)) as [k|].
        -- destruct IH as (Hok & Hk & Hlt & Hm).
           repeat split; [exact Hok | lia | lia |].
           replace (k - calls) with (S (k - S calls)) by lia.
           cbn [firstn]. now rewrite Hm.
        -- destruct IH as (Hok & Hc & Hm). repeat split; [exact Hok | lia |].
           now rewrite Hm.
Qed.

(** X5.  [run] starts the job only on a schema that is fully set up: the
    statements that drop (when asked for) and create the schema are sent
    in order; if the session accepts them all, [runJob] is called; if it
    refuses one, that one is the last statement sent and [runJob] is not
    called. *)
Theorem run_schema_gates_job (dropSchema verbose : bool)
    (dropStmts createStmts : list string) (answer : nat -> option error) :
  let stmts := (if dropSchema then dropStmts else []) ++ createStmts in
  let trace := run_schema dropSchema verbose dropStmts createStmts answer in
  match first_error answer 0 (List.length stmts) with
  | None => mutations trace = stmts /\ In RunJob trace
  | Some k => mutations trace = firstn (S k) stmts /\ ~ In RunJob trace
  end.
Proof.
  cbv zeta. unfold run_schema.
  replace (if dropSchema then run_stmts verbose answer 0 dropStmts
           else ([], 0, true))
    with (run_stmts verbose answer 0 (if dropSchema then dropStmts else []))
    by now destruct dropSchema.
  generalize (if dropSchema then dropStmts else []). intros drops.
  rewrite length_app, first_error_app.
  pose proof (run_stmts_spec verbose answer drops 0) as Hd. cbv zeta in Hd.
  destruct (run_stmts verbose answer 0 drops) as [[dropped calls] ok].
  cbn [fst snd] in Hd. destruct Hd as [Hno Hd].
  destruct (first_error answer 0 (List.length drops)) as [k|].
  - destruct Hd as (-> & _ & Hlt & Hm). rewrite Nat.sub_0_r in Hm.
    split; [|exact Hno].
    rewrite Hm, firstn_app.
    replace (S k - List.length drops) with 0%nat by lia.
    cbn [firstn]. now rewrite app_nil_r.
  - destruct Hd as (-> & -> & Hm). cbn [Nat.add].
    pose proof (run_stmts_spec verbose answer createStmts (List.length drops))
      as Hc. cbv zeta in Hc.
    destruct (run_stmts verbose answer (List.length drops) createStmts)
      as [[created calls'] ok'].
    cbn [fst snd] in Hc. destruct Hc as [Hno' Hc].
    destruct (first_error answer (List.length drops) (List.length createStmts))
      as [k|].
    + destruct Hc as (-> & Hk & _ & Hc). split.
      * rewrite !mutations_app, Hm, Hc, app_nil_r, firstn_app.
        rewrite (@firstn_all2 _ (S k) drops) by lia.
        now replace (S k - List.length drops)
          with (S (k - List.length drops)) by lia.
      * rewrite app_nil_r. intros H. apply in_app_or in H. tauto.
    + destruct Hc as (-> & _ & Hc). split.
      * rewrite !mutations_app, Hm, Hc. cbn. now rewrite app_nil_r.
      * apply in_or_app. right. apply in_or_app. right. now left.
Qed.

End RunFacts.

(* ===================================================================== *)
(** ** More on [ignore], [doMutate] and [mutate] *)
(* ===================================================================== *)

Module MutateFacts.

Import errors store StoreFacts.
Local Open Scope Z_scope.

Lemma Is_Wrapf_sentinel err msg :
  Is (Wrapf err msg) Canceled = Is err Canceled
  /\ Is (Wrapf err msg) DeadlineExceeded = Is err DeadlineExceeded.
Proof. split; reflexivity. Qed.

Lemma doMutate_ops cs queryBody executed w :
  ops (snd (doMutate cs queryBody executed w)) = ops w.
Proof.
  unfold doMutate. destruct executed as [err|]; [|reflexivity].
  destruct (Is err DeadlineExceeded && logger cs DebugLevel);
    destruct (negb (ignore (Some err))); reflexivity.
Qed.

(** What [doMutate] returns: nil for an execution [ignore] swallows, the
    wrapped error of an execution that [ignore] rejects. *)
Lemma doMutate_cases cs queryBody executed w :
  match fst (doMutate cs queryBody executed w) with
  | None => ignore executed = true
  | Some e =>
      ignore (Some e) = false
      /\ exists err,
           executed = Some err
           /\ ignore (Some err) = false
           /\ e = Wrapf err (context_of cs queryBody)
  end.
Proof.
  unfold doMutate. destruct executed as [err|]; [|reflexivity].
  destruct (ignore (Some err)) eqn:E; cbn [negb fst].
  - reflexivity.
  - split; [exact E|]. now exists err.
Qed.

(** X6.  Wrapping does not hide a context error from [ignore], and so
    [doMutate] never returns an error that [ignore] would swallow: what it
    returns is nil, or the wrapped error of an execution that [ignore]
    rejects. *)
Theorem doMutate_returns_rejected cs queryBody executed w :
  (forall err msg, ignore (Some (Wrapf err msg)) = ignore (Some err))
  /\ match fst (doMutate cs queryBody executed w) with
     | None => ignore executed = true
     | Some e =>
         ignore (Some e) = false
         /\ exists err,
              executed = Some err
              /\ ignore (Some err) = false
              /\ e = Wrapf err (context_of cs queryBody)
     end.
Proof.
  split; [reflexivity | apply doMutate_cases].
Qed.

Section Loop.

Variable cs : cqlStore.
Variable queryBody : string.

(** The loop looks at the attempts from [i] to [i + todo - 1] and at no
    other. *)
Lemma mutate_loop_ext env env' todo : forall i err w,
  (forall j, (i <= j < i + todo)%nat -> env j = env' j) ->
  mutate_loop cs queryBody env todo i err w
  = mutate_loop cs queryBody env' todo i err w.
Proof.
  induction todo as [|todo IH]; intros i err w H; [reflexivity|].
  cbn [mutate_loop]. rewrite <- (H i) by lia.
  destruct (doMutate cs queryBody (exec (env i)) w) as [[e|] w1];
    [|reflexivity].
  destruct (done (env i)); [reflexivity|].
  apply IH. intros j Hj. apply H. lia.
Qed.

(** The counter [ops] goes up by one when the loop returns nil after an
    attempt, and stays when it returns an error. *)
Lemma mutate_loop_ops env todo : forall i err w,
  (todo = 0%nat -> err <> None) ->
  let r := mutate_loop cs queryBody env todo i err w in
  match fst r with
  | None => ops (snd r) = ops w + 1
  | Some _ => ops (snd r) = ops w
  end.
Proof.
  induction todo as [|todo IH]; intros i err w H0; cbv zeta.
  - destruct err as [e|]; [|now elim H0].
    cbn. now destruct (logger cs ErrorLevel).
  - cbn [mutate_loop].
    pose proof (doMutate_ops cs queryBody (exec (env i)) w) as Hops.
    destruct (doMutate cs queryBody (exec (env i)) w) as [[e|] w1];
      cbn [snd] in Hops.
    + destruct (done (env i)) as [ctxErr|]; [cbn; exact Hops|].
      specialize (IH (S i) (Some e) w1 ltac:(discriminate)). cbv zeta in IH.
      destruct (fst (mutate_loop cs queryBody env todo (S i) (Some e) w1));
        lia.
    + cbn. lia.
Qed.

(** Where the error of the loop comes from. *)
Lemma mutate_loop_error env todo : forall i err w e,
  fst (mutate_loop cs queryBody env todo i err w) = Some e ->
  (todo = 0%nat /\ err = Some e)
  \/ (exists j, (i <= j < i + todo)%nat /\ done (env j) = Some e)
  \/ (exists last, (0 < todo)%nat
                   /\ exec (env (i + todo - 1)%nat) = Some last
                   /\ e = Wrapf last (context_of cs queryBody)).
Proof.
  induction todo as [|todo IH]; intros i err w e H.
  - left. split; [reflexivity|].
    cbn in H. now destruct (logger cs ErrorLevel).
  - cbn [mutate_loop] in H. right.
    pose proof (doMutate_cases cs queryBody (exec (env i)) w) as Hd.
    destruct (doMutate cs queryBody (exec (env i)) w) as [[e1|] w1];
      cbn [fst] in *; [|discriminate].
    destruct Hd as (_ & err1 & Hex & _ & ->).
    destruct (done (env i)) as [ctxErr|] eqn:Ed.
    + cbn in H. injection H as ->. left. exists i. split; [lia | exact Ed].
    + apply IH in H as [[-> H]|[(j & Hj & H)|(last & Hpos & Hl & ->)]].
      * injection H as <-. right. exists err1.
        replace (i + 1 - 1)%nat with i by lia. repeat split; [lia | exact Hex].
      * left. exists j. split; [lia | exact H].
      * right. exists last.
        replace (i + S todo - 1)%nat with (S i + todo - 1)%nat by lia.
        repeat split; [lia | exact Hl].
Qed.

End Loop.

(** X7.  The counter [ops] counts the mutations that succeeded: with at
    least one attempt allowed, [mutate] increments it exactly once when it
    returns nil and leaves it alone when it returns an error. *)
Theorem mutate_counts_successes cs queryBody env w :
  1 <= maxRetriesMutate cs ->
  match fst (mutate cs queryBody env w) with
  | None => ops (snd (mutate cs queryBody env w)) = ops w + 1
  | Some _ => ops (snd (mutate cs queryBody env w)) = ops w
  end.
Proof.
  intros H. unfold mutate.
  apply (@mutate_loop_ops cs queryBody env (Z.to_nat (maxRetriesMutate cs))
           0%nat None w).
  lia.
Qed.

Lemma mutate_counts_successes_witness :
  ops (snd (mutate examples.sut "INSERT" examples.failTwice examples.quiet)) = 0 + 1.
Proof.
  apply (@mutate_counts_successes examples.sut "INSERT" examples.failTwice
           examples.quiet).
  cbn. lia.
Defined.

(** X8.  With no attempt allowed ([maxRetriesMutate] zero or negative)
    [mutate] executes nothing and still returns nil: the result is the
    same whatever the session would answer, [ops] is not incremented, and
    the only trace is the log entry of a failure after 0 attempts, when
    the error level is logged. *)
Theorem mutate_without_attempts cs queryBody env env' w :
  maxRetriesMutate cs <= 0 ->
  mutate cs queryBody env w = mutate cs queryBody env' w
  /\ fst (mutate cs queryBody env w) = None
  /\ ops (snd (mutate cs queryBody env w)) = ops w
  /\ log (snd (mutate cs queryBody env w))
     = (log w ++ if logger cs ErrorLevel
                 then [FailedToApplyMutation 0 None] else [])%list.
Proof.
  intros H. unfold mutate.
  replace (Z.to_nat (maxRetriesMutate cs)) with 0%nat by lia.
  cbn. destruct (logger cs ErrorLevel); cbn; repeat split.
  now rewrite app_nil_r.
Qed.

Lemma mutate_without_attempts_witness :
  fst (mutate (mkCqlStore "test" 0 10 false (fun _ => true)) "INSERT"
         examples.failAlways examples.quiet) = None.
Proof.
  apply (@mutate_without_attempts
           (mkCqlStore "test" 0 10 false (fun _ => true)) "INSERT"
           examples.failAlways examples.failTwice examples.quiet).
  cbn. lia.
Defined.

(** X9.  [mutate] never makes more than [maxRetriesMutate] attempts: two
    sessions that answer the first [maxRetriesMutate] attempts alike give
    the same result, the same count and the same log. *)
Theorem mutate_bounded_attempts cs queryBody env env' w :
  (forall i, Z.of_nat i < maxRetriesMutate cs -> env i = env' i) ->
  mutate cs queryBody env w = mutate cs queryBody env' w.
Proof.
  intros H. unfold mutate. apply mutate_loop_ext.
  intros j Hj. apply H. lia.
Qed.

Lemma mutate_bounded_attempts_witness :
  mutate examples.sut "INSERT" examples.failAlways examples.quiet
  = mutate examples.sut "INSERT"
      (fun i => if Nat.ltb i 3 then examples.failAlways i
                else examples.failTwice i)
      examples.quiet.
Proof.
  apply (@mutate_bounded_attempts examples.sut "INSERT").
  intros i Hi. cbn in Hi.
  destruct (Nat.ltb_spec i 3) as [_|Hge]; [reflexivity | lia].
Defined.

(** X10.  [mutate] invents no error: the error it returns is the error of
    the context at a wait that followed one of the [maxRetriesMutate]
    attempts, or the error of the last attempt, wrapped in the cluster and
    the query. *)
Theorem mutate_error_origin cs queryBody env w e :
  fst (mutate cs queryBody env w) = Some e ->
  (exists j, Z.of_nat j < maxRetriesMutate cs /\ done (env j) = Some e)
  \/ (exists last,
        1 <= maxRetriesMutate cs
        /\ exec (env (Z.to_nat (maxRetriesMutate cs) - 1)%nat) = Some last
        /\ e = Wrapf last (context_of cs queryBody)).
Proof.
  unfold mutate. intros H.
  apply mutate_loop_error in H as [[_ H]|[(j & Hj & H)|(last & Hpos & Hl & ->)]].
  - discriminate H.
  - left. exists j. split; [lia | exact H].
  - right. exists last. cbn [Nat.add] in Hl. repeat split; [lia | exact Hl].
Qed.

Lemma mutate_error_origin_witness :
  (exists j, Z.of_nat j < maxRetriesMutate examples.sutOnce
             /\ done (examples.failThenCancelled j) = Some Canceled)
  \/ (exists last,
        1 <= maxRetriesMutate examples.sutOnce
        /\ exec (examples.failThenCancelled
                   (Z.to_nat (maxRetriesMutate examples.sutOnce) - 1)%nat)
           = Some last
        /\ Canceled = Wrapf last (context_of examples.sutOnce "INSERT")).
Proof.
  apply (@mutate_error_origin examples.sutOnce "INSERT"
           examples.failThenCancelled examples.quiet Canceled).
  reflexivity.
Defined.

(** X11.  An attempt that ends on context-canceled or deadline-exceeded
    counts as a success: when the attempts before it failed and waited on
    the timer, [mutate] returns nil and increments [ops], as for a
    mutation that was applied. *)
Theorem mutate_counts_cut_off_attempt cs queryBody env w k err :
  Z.of_nat k < maxRetriesMutate cs ->
  (forall j, (j < k)%nat -> fails_and_waits (env j)) ->
  exec (env k) = Some err ->
  ignore (Some err) = true ->
  fst (mutate cs queryBody env w) = None
  /\ ops (snd (mutate cs queryBody env w)) = ops w + 1.
Proof.
  intros Hk Hf He Hi.
  assert (Hm : fst (mutate cs queryBody env w) = None).
  { unfold mutate.
    replace (Z.to_nat (maxRetriesMutate cs))
      with (k + S (Z.to_nat (maxRetriesMutate cs) - S k))%nat by lia.
    destruct (@mutate_loop_skips cs queryBody env k
                (S (Z.to_nat (maxRetriesMutate cs) - S k)) 0%nat None w)
      as (err' & w' & Hl & _ & _).
    { intros j Hj. apply Hf. lia. }
    rewrite Hl. cbn [mutate_loop Nat.add]. rewrite He.
    pose proof (@doMutate_swallows cs queryBody err w' Hi) as Hs.
    destruct (doMutate cs queryBody (Some err) w') as [r w1].
    cbn [fst] in Hs. now subst r. }
  split; [exact Hm|].
  pose proof (@mutate_loop_ops cs queryBody env
                (Z.to_nat (maxRetriesMutate cs)) 0%nat None w ltac:(lia)) as Ho.
  cbv zeta in Ho. unfold mutate in *. now rewrite Hm in Ho.
Qed.

Lemma mutate_counts_cut_off_attempt_witness :
  fst (mutate examples.sut "INSERT"
         (fun i => match i with
                   | O => examples.failAlways i
                   | _ => mkAttempt (Some DeadlineExceeded) None
                   end)
         examples.quiet) = None.
Proof.
  apply (@mutate_counts_cut_off_attempt examples.sut "INSERT" _ examples.quiet
           1%nat DeadlineExceeded).
  - cbn. lia.
  - intros [|j] Hj; [|lia]. split; [|reflexivity].
    exists examples.timeout. split; reflexivity.
  - reflexivity.
  - reflexivity.
Defined.

End MutateFacts.

(* ===================================================================== *)
(** ** [StatementCacheType.ToString] and [Values.CopyFrom] *)
(* ===================================================================== *)

Module CacheFacts.

Import typedef typedef_rest.
Local Open Scope Z_scope.

(** X12.  [ToString] names exactly the cache types below [CacheArrayLen]
    and panics on every other value; the names tell the cache types
    apart. *)
Theorem ToString_names_cache_types (t : StatementCacheType) :
  ((exists name, ToString t = Done name) <-> 0 <= t < CacheArrayLen)
  /\ (ToString t = Fault (UnknownStatementCacheType t)
      <-> ~ 0 <= t < CacheArrayLen)
  /\ (forall t' name,
        ToString t = Done name -> ToString t' = Done name -> t = t').
Proof.
  unfold ToString, CacheInsert, CacheInsertIfNotExists, CacheUpdate,
    CacheDelete, CacheArrayLen.
  split; [|split].
  - destruct (Z.eqb_spec t 0); [split; [lia | eexists; reflexivity]|].
    destruct (Z.eqb_spec t 1); [split; [lia | eexists; reflexivity]|].
    destruct (Z.eqb_spec t 2); [split; [lia | eexists; reflexivity]|].
    destruct (Z.eqb_spec t 3); [split; [lia | eexists; reflexivity]|].
    split; [intros [name H]; discriminate H | lia].
  - destruct (Z.eqb_spec t 0); [split; [discriminate | lia]|].
    destruct (Z.eqb_spec t 1); [split; [discriminate | lia]|].
    destruct (Z.eqb_spec t 2); [split; [discriminate | lia]|].
    destruct (Z.eqb_spec t 3); [split; [discriminate | lia]|].
    split; [lia | reflexivity].
  - intros t' name.
    destruct (Z.eqb_spec t 0); [|destruct (Z.eqb_spec t 1);
      [|destruct (Z.eqb_spec t 2); [|destruct (Z.eqb_spec t 3)]]];
    (destruct (Z.eqb_spec t' 0); [|destruct (Z.eqb_spec t' 1);
      [|destruct (Z.eqb_spec t' 2); [|destruct (Z.eqb_spec t' 3)]]]);
    intros H1 H2; try discriminate H1; try discriminate H2;
    try congruence; rewrite <- H2 in H1; discriminate H1.
Qed.

End CacheFacts.

Module CopyFromFacts.

Import typedef typedef_rest ValuesFacts.

Lemma set_array_same (h : heap) (p : nat) (a : list cell) :
  p < List.length h -> nth p (set_array h p a) [] = a.
Proof.
  revert p. induction h as [|x h IH]; intros [|p] H; cbn in *;
    try lia; [reflexivity | apply IH; lia].
Qed.

Lemma set_array_length (h : heap) (p : nat) (a : list cell) :
  List.length (set_array h p a) = List.length h.
Proof.
  revert p. induction h as [|x h IH]; intros [|p]; cbn; auto.
Qed.

Lemma roomed_valid h v : roomed h v -> valid h v.
Proof. intros (Hp & Hl & Hc). split; [exact Hp | lia]. Qed.

(** X13.  [CopyFrom] succeeds exactly when the capacity of the receiver
    holds its elements and those of the source; beyond it, taking the
    slice panics. *)
Theorem CopyFrom_needs_capacity h v src :
  ((exists grown, CopyFrom h v src = Done grown)
   <-> len v + len src <= cap v)
  /\ (cap v < len v + len src ->
      CopyFrom h v src
      = Fault (SliceBoundsOutOfRange (len v + len src) (cap v))).
Proof.
  unfold CopyFrom, reslice. cbn [Nat.leb andb].
  replace (Nat.leb (len v) (len v + len src)) with true
    by (symmetry; apply Nat.leb_le; lia).
  cbn [andb].
  destruct (Nat.leb_spec (len v + len src) (cap v)) as [Hle|Hgt].
  - destruct (copy h _ src) as [n h']. split.
    + split; [intros _; exact Hle | intros _; eexists; reflexivity].
    + lia.
  - split.
    + split; [intros [grown H]; discriminate H | lia].
    + reflexivity.
Qed.

(** X14.  Within the capacity, [CopyFrom] appends in place: the slice it
    returns starts where the receiver starts, in the same backing array,
    and holds the elements of the receiver followed by those of the
    source; the elements of the receiver are as they were, no array is
    allocated and no other array is written. *)
Theorem CopyFrom_appends_in_place h v src :
  roomed h v -> valid h src -> len v + len src <= cap v ->
  exists grown h',
    CopyFrom h v src = Done (grown, h')
    /\ ptr grown = ptr v /\ off grown = off v
    /\ len grown = len v + len src /\ cap grown = cap v
    /\ elems h' grown = elems h v ++ elems h src
    /\ elems h' v = elems h v
    /\ List.length h' = List.length h
    /\ (forall p, p <> ptr v -> nth p h' [] = nth p h []).
Proof.
  intros Hr Hs Hcap.
  pose proof (elems_length (roomed_valid Hr)) as Hlv.
  pose proof (elems_length Hs) as Hls.
  destruct Hr as (Hp & Hl & Hc).
  unfold CopyFrom, reslice. cbn [Nat.leb andb].
  replace (Nat.leb (len v) (len v + len src)) with true
    by (symmetry; apply Nat.leb_le; lia).
  replace (Nat.leb (len v + len src) (cap v)) with true
    by (symmetry; apply Nat.leb_le; lia).
  cbn [andb]. unfold copy. cbn [ptr off len cap].
  replace (len v + len src - len v) with (len src) by lia.
  rewrite Nat.min_id, <- Hls, firstn_all, Hls.
  change (backing h (mkValues (ptr v) (off v + len v) (len src) (cap v - len v)))
    with (backing h v).
  set (a := backing h v) in *.
  set (a' := firstn (off v + len v) a ++ elems h src
             ++ skipn (off v + len v + len src) a).
  exists (mkValues (ptr v) (off v + 0) (len v + len src - 0) (cap v - 0)),
         (set_array h (ptr v) a').
  assert (Hskip : skipn (off v) a'
                  = elems h v ++ elems h src
                    ++ skipn (off v + len v + len src) a).
  { unfold a'. rewrite skipn_app, length_firstn.
    replace (off v - Nat.min (off v + len v) (List.length a)) with 0 by lia.
    cbn [skipn]. f_equal. unfold elems. fold a.
    rewrite skipn_firstn_comm. f_equal. lia. }
  cbn [ptr off len cap].
  rewrite Nat.add_0_r, !Nat.sub_0_r.
  repeat split.
  - unfold elems at 1. unfold backing at 1. cbn [ptr off len].
    rewrite set_array_same by assumption. rewrite Hskip.
    rewrite firstn_app, Hlv.
    rewrite (@firstn_all2 _ (len v + len src) (elems h v)) by lia.
    f_equal. replace (len v + len src - len v) with (len src) by lia.
    rewrite firstn_app, Hls, Nat.sub_diag. cbn [firstn].
    rewrite app_nil_r, <- Hls at 1. apply firstn_all.
  - unfold elems at 1. unfold backing at 1.
    rewrite set_array_same by assumption.
    rewrite Hskip, firstn_app, Hlv, Nat.sub_diag. cbn [firstn].
    rewrite app_nil_r, <- Hlv at 1. apply firstn_all.
  - apply set_array_length.
  - intros p Hne. apply set_array_other. congruence.
Qed.

Lemma CopyFrom_appends_in_place_witness :
  exists grown h',
    CopyFrom examples_rest.roomyArray examples_rest.firstTwo
      examples_rest.eightNine = Done (grown, h')
    /\ elems h' grown = [VInt 1; VInt 2; VInt 8; VInt 9].
Proof.
  destruct (@CopyFrom_appends_in_place examples_rest.roomyArray
              examples_rest.firstTwo examples_rest.eightNine)
    as (grown & h' & H & _ & _ & _ & _ & He & _).
  - unfold roomed. cbn. lia.
  - unfold valid. cbn. lia.
  - cbn. lia.
  - exists grown, h'. split; [exact H | exact He].
Defined.

End CopyFromFacts.

(* ===================================================================== *)
(** ** [Stmt.PrettyCQL] over simple types and bags, more on [BagType.CQLPretty] *)
(* ===================================================================== *)

Module ShapeFacts.

Import strings typedef typedef_rest StringFacts BagFacts ValuesFacts PrettyFacts.
Local Open Scope string_scope.

Section WithLiteral.

Variable literal : SimpleType -> cell -> option string.

(** A simple type or a bag that finds a value that matches it prints
    something into the leftmost placeholder and consumes the value; what
    it prints depends on the value alone. *)
Lemma Type_of_matched typ v :
  matches literal typ v = true ->
  exists new, forall query vs,
    Type_CQLPretty (Type_of literal typ) query (v :: vs)
    = Ok (Replace1 query "?" new, 1%Z).
Proof.
  destruct typ as [st|ct]; cbn [matches Type_of Type_CQLPretty
    SimpleType_Type BagType_Type]; intros H.
  - destruct (literal st v) as [l|] eqn:E; [|discriminate H].
    exists l. intros query vs. cbn [SimpleType_CQLPretty]. now rewrite E.
  - destruct v as [| | | |s]; try discriminate H.
    destruct (literals literal (ValueType ct) s) as [lits|] eqn:E;
      [|discriminate H].
    unfold BagType_CQLPretty. cbn [TypeOf ValueOf].
    destruct (String.eqb (ComplexType ct) TYPE_SET).
    + destruct (@print_elems_returns literal (ValueType ct) s lits
                  (TrimRight ("{" ++ Repeat "?," (List.length s)) "," ++ "}") E)
        as [vv Hv].
      exists vv. intros query vs. now rewrite Hv.
    + destruct (@print_elems_returns literal (ValueType ct) s lits
                  (TrimRight ("[" ++ Repeat "?," (List.length s)) "," ++ "]") E)
        as [vv Hv].
      exists vv. intros query vs. now rewrite Hv.
Qed.

(** A simple type or a bag that finds a value that does not match it
    panics. *)
Lemma Type_of_mismatched typ v :
  matches literal typ v = false ->
  exists p, forall query vs,
    Type_CQLPretty (Type_of literal typ) query (v :: vs) = Panicked p.
Proof.
  destruct typ as [st|ct]; cbn [matches Type_of Type_CQLPretty
    SimpleType_Type BagType_Type]; intros H.
  - destruct (literal st v) as [l|] eqn:E; [discriminate H|].
    exists (PanicTypeMismatch st). intros query vs.
    cbn [SimpleType_CQLPretty]. now rewrite E.
  - destruct v as [| | | |s]; try (eexists; intros query vs; reflexivity).
    destruct (literals literal (ValueType ct) s) as [lits|] eqn:E;
      [discriminate H|].
    exists (PanicTypeMismatch (ValueType ct)). intros query vs.
    now apply BagType_CQLPretty_mismatch.
Qed.

Lemma Type_of_none typ query :
  Type_CQLPretty (Type_of literal typ) query [] = Ok (query, 0%Z).
Proof. now destruct typ. Qed.

Section Loop.

Variable h : heap.

(** One round of the loop, when the values have run out. *)
Lemma loop_round_out typ types query values :
  valid h values -> elems h values = [] ->
  PrettyCQL_loop h (Type_of literal typ :: types) query values
  = PrettyCQL_loop h types query (slice_from values 0)
  /\ valid h (slice_from values 0)
  /\ elems h (slice_from values 0) = [].
Proof.
  intros Hv He. cbn [PrettyCQL_loop]. rewrite He, Type_of_none.
  replace (Z.of_nat (len values) >=? 0)%Z with true
    by (symmetry; apply Z.geb_le; lia).
  cbn [Z.ltb Z.compare Z.to_nat]. split; [reflexivity|]. split.
  - apply valid_slice_from; [lia | assumption].
  - rewrite elems_slice_from by lia. now rewrite He.
Qed.

(** One round of the loop, when the type consumes the first value. *)
Lemma loop_round_found (typ : Type_) types query values v vs query' :
  valid h values -> elems h values = v :: vs ->
  Type_CQLPretty typ query (v :: vs) = Ok (query', 1%Z) ->
  PrettyCQL_loop h (typ :: types) query values
  = PrettyCQL_loop h types query' (slice_from values 1)
  /\ valid h (slice_from values 1)
  /\ elems h (slice_from values 1) = vs
  /\ 1 <= len values.
Proof.
  intros Hv He Hp.
  assert (Hlen : 1 <= len values).
  { rewrite <- (elems_length Hv), He. cbn. lia. }
  cbn [PrettyCQL_loop]. rewrite He, Hp.
  replace (Z.of_nat (len values) >=? 1)%Z with true
    by (symmetry; apply Z.geb_le; lia).
  cbn [Z.ltb Z.compare Z.to_nat Pos.to_nat Pos.iter_op Nat.add].
  split; [reflexivity|]. split; [now apply valid_slice_from|]. split.
  - rewrite elems_slice_from by assumption. now rewrite He.
  - exact Hlen.
Qed.

Lemma loop_out types : forall query values,
  valid h values -> elems h values = [] ->
  PrettyCQL_loop h (map (Type_of literal) types) query values = Ok query.
Proof.
  induction types as [|typ types IH]; intros query values Hv He;
    [reflexivity|].
  cbn [map].
  destruct (@loop_round_out typ (map (Type_of literal) types) query values
              Hv He) as (-> & Hv' & He').
  now apply IH.
Qed.

Lemma found_match_out types : found_match literal types [] = true.
Proof. now destruct types. Qed.

Lemma loop_matches types : forall query values,
  valid h values ->
  ((exists query',
      PrettyCQL_loop h (map (Type_of literal) types) query values = Ok query')
   <-> found_match literal types (elems h values) = true).
Proof.
  induction types as [|typ types IH]; intros query values Hv.
  - split; [reflexivity | intros _; now exists query].
  - destruct (elems h values) as [|v vs] eqn:E.
    + rewrite (loop_out (typ :: types) query Hv E).
      split; [intros _; apply found_match_out|].
      intros _. now exists query.
    + cbn [found_match map].
      destruct (matches literal typ v) eqn:Es; cbn [andb].
      * destruct (@Type_of_matched typ v Es) as [new Hp].
        destruct (@loop_round_found (Type_of literal typ)
                    (map (Type_of literal) types) query values v vs _ Hv E
                    (Hp query vs)) as (-> & Hv' & He' & _).
        rewrite <- He'. now apply IH.
      * destruct (@Type_of_mismatched typ v Es) as [p Hp].
        cbn [PrettyCQL_loop]. rewrite E, Hp.
        split; [intros [q H]; discriminate H | discriminate].
Qed.

Lemma loop_unchanged types : forall query values,
  valid h values ->
  found_match literal types (elems h values) = true ->
  Count query "?" = 0 ->
  PrettyCQL_loop h (map (Type_of literal) types) query values = Ok query.
Proof.
  induction types as [|typ types IH]; intros query values Hv Hs Hq;
    [reflexivity|].
  destruct (elems h values) as [|v vs] eqn:E.
  - now apply loop_out.
  - cbn [found_match] in Hs. apply andb_prop in Hs as [Hs1 Hs2].
    destruct (@Type_of_matched typ v Hs1) as [new Hp].
    specialize (Hp query vs).
    rewrite Replace1_absent in Hp by assumption.
    cbn [map].
    destruct (@loop_round_found (Type_of literal typ)
                (map (Type_of literal) types) query values v vs _ Hv E Hp)
      as (-> & Hv' & He' & _).
    apply IH; [assumption | now rewrite He' | assumption].
Qed.

(** A simple type or a bag whose value prints without placeholder fills
    one. *)
Lemma Type_of_clean typ query v vs :
  prints_clean literal typ v = true ->
  exists query',
    Type_CQLPretty (Type_of literal typ) query (v :: vs) = Ok (query', 1%Z)
    /\ Count query' "?" = Count query "?" - 1.
Proof.
  destruct typ as [st|ct]; cbn [prints_clean Type_of]; intros H.
  - destruct (literal st v) as [l|] eqn:E; [|discriminate H].
    destruct (@SimpleType_fills literal st v vs l E H) as [_ Hf].
    exact (Hf query).
  - destruct v as [| | | |s]; try discriminate H.
    destruct (literals literal (ValueType ct) s) as [lits|] eqn:E;
      [|discriminate H].
    destruct (@BagType_fills literal ct s vs lits E H) as [_ Hf].
    exact (Hf query).
Qed.

Lemma loop_fills_found types : forall query values,
  valid h values ->
  found_print_clean literal types (elems h values) = true ->
  exists query',
    PrettyCQL_loop h (map (Type_of literal) types) query values = Ok query'
    /\ Count query' "?"
       = Count query "?" - Nat.min (List.length types) (len values).
Proof.
  induction types as [|typ types IH]; intros query values Hv Hc.
  - exists query. split; [reflexivity | cbn; lia].
  - destruct (elems h values) as [|v vs] eqn:E.
    + exists query. split; [now apply loop_out|].
      pose proof (elems_length Hv) as Hl. rewrite E in Hl. cbn in Hl.
      rewrite <- Hl, Nat.min_0_r. lia.
    + cbn [found_print_clean] in Hc. apply andb_prop in Hc as [Hc1 Hc2].
      destruct (@Type_of_clean typ query v vs Hc1) as (q1 & Hp & Hn).
      cbn [map].
      destruct (@loop_round_found (Type_of literal typ)
                  (map (Type_of literal) types) query values v vs _ Hv E Hp)
        as (-> & Hv' & He' & Hlen).
      destruct (IH q1 (slice_from values 1) Hv') as (q2 & Hq2 & Hn2).
      { now rewrite He'. }
      exists q2. split; [exact Hq2|]. rewrite Hn2, Hn.
      cbn [slice_from len List.length]. lia.
Qed.

End Loop.

(** [PrettyCQL] is its loop over the copy of the values: the early return
    on no value is what the loop returns as well. *)
Lemma PrettyCQL_as_loop h s types :
  valid h (Values_ s) ->
  Types (Cache s) = map (Type_of literal) types ->
  exists h' values,
    fst (PrettyCQL h s)
    = PrettyCQL_loop h' (map (Type_of literal) types) (Query (Cache s)) values
    /\ valid h' values
    /\ elems h' values = elems h (Values_ s)
    /\ len values = len (Values_ s).
Proof.
  intros Hv Ht. pose proof (elems_length Hv) as Hlen.
  exists (h ++ [elems h (Values_ s)])%list,
         (mkValues (List.length h) 0 (len (Values_ s)) (len (Values_ s))).
  assert (Hv' : valid (h ++ [elems h (Values_ s)])%list
                  (mkValues (List.length h) 0 (len (Values_ s)) (len (Values_ s)))).
  { split; cbn [ptr off len].
    - rewrite length_app. cbn. lia.
    - unfold backing. cbn [ptr]. rewrite nth_fresh. lia. }
  assert (He' : elems (h ++ [elems h (Values_ s)])%list
                  (mkValues (List.length h) 0 (len (Values_ s)) (len (Values_ s)))
                = elems h (Values_ s)).
  { rewrite <- Hlen at 1 2. apply elems_fresh. }
  split; [|split; [exact Hv' | split; [exact He' | reflexivity]]].
  unfold PrettyCQL. rewrite Values_Copy_eq by assumption. cbn [len].
  rewrite Ht.
  destruct (Nat.eqb (len (Values_ s)) 0) eqn:E0; cbn [fst]; [|reflexivity].
  symmetry. apply loop_out; [exact Hv'|]. rewrite He'.
  apply Nat.eqb_eq in E0. rewrite E0 in Hlen.
  now apply length_zero_iff_nil.
Qed.

(** X15.  For a statement whose types are simple types and bags:
    [PrettyCQL] returns a query if and only if every type that finds a
    value finds one that matches it, a simple type a value it has a
    literal for, a bag a slice of such values; otherwise it panics. *)
Theorem PrettyCQL_returns_iff_matched h s types :
  valid h (Values_ s) ->
  Types (Cache s) = map (Type_of literal) types ->
  ((exists query, fst (PrettyCQL h s) = Ok query)
   <-> found_match literal types (elems h (Values_ s)) = true)
  /\ ((exists p, fst (PrettyCQL h s) = Panicked p)
      <-> found_match literal types (elems h (Values_ s)) = false).
Proof.
  intros Hv Ht.
  destruct (@PrettyCQL_as_loop h s types Hv Ht)
    as (h' & values & Hl & Hv' & He & _).
  pose proof (@loop_matches h' types (Query (Cache s)) values Hv') as Hm.
  rewrite He, <- Hl in Hm. split; [exact Hm|].
  destruct (fst (PrettyCQL h s)) as [q|p] eqn:E.
  - assert (Ht' : found_match literal types (elems h (Values_ s)) = true)
      by (apply Hm; now exists q).
    rewrite Ht'. split; [intros [p H]; discriminate H | discriminate].
  - destruct (found_match literal types (elems h (Values_ s))) eqn:Ef.
    + destruct (proj2 Hm eq_refl) as [q H]. discriminate H.
    + split; [reflexivity | intros _; now exists p].
Qed.

(** X16.  For a statement whose types are simple types and bags: a query
    without [?] comes back as it is, as long as every type that finds a
    value finds one that matches it. *)
Theorem PrettyCQL_without_placeholder h s types :
  valid h (Values_ s) ->
  Types (Cache s) = map (Type_of literal) types ->
  found_match literal types (elems h (Values_ s)) = true ->
  Count (Query (Cache s)) "?" = 0 ->
  fst (PrettyCQL h s) = Ok (Query (Cache s)).
Proof.
  intros Hv Ht Hs Hq.
  destruct (@PrettyCQL_as_loop h s types Hv Ht)
    as (h' & values & -> & Hv' & He' & _).
  apply loop_unchanged; [assumption | now rewrite He' | assumption].
Qed.

(** X17.  For a statement whose types are simple types and bags, each of
    which consumes one value: when the values that find a type print
    without [?], the query [PrettyCQL] returns has as many [?] less than
    the query of the statement as there are types, or values if they are
    fewer (and none when the query had no more than that). *)
Theorem PrettyCQL_fills_one_each h s types :
  valid h (Values_ s) ->
  Types (Cache s) = map (Type_of literal) types ->
  found_print_clean literal types (elems h (Values_ s)) = true ->
  exists query,
    fst (PrettyCQL h s) = Ok query
    /\ Count query "?"
       = Count (Query (Cache s)) "?"
         - Nat.min (List.length types) (len (Values_ s)).
Proof.
  intros Hv Ht Hc.
  destruct (@PrettyCQL_as_loop h s types Hv Ht)
    as (h' & values & -> & Hv' & He' & <-).
  apply loop_fills_found; [assumption | now rewrite He'].
Qed.

End WithLiteral.

Import examples examples_rest.

Lemma PrettyCQL_returns_iff_matched_witness :
  ((exists query, fst (PrettyCQL oneArray insertShort) = Ok query)
   <-> true = true)
  /\ ((exists p, fst (PrettyCQL oneArray insertMisshaped) = Panicked p)
      <-> false = false).
Proof.
  split.
  - apply (@PrettyCQL_returns_iff_matched cqlLiteral oneArray insertShort
             [TBag list_of_int; TSimple "int"]).
    + unfold valid. cbn. lia.
    + reflexivity.
  - apply (@PrettyCQL_returns_iff_matched cqlLiteral oneArray insertMisshaped
             [TBag list_of_int; TBag list_of_int]).
    + unfold valid. cbn. lia.
    + reflexivity.
Defined.

(** The statement that binds the number [3] to a list panics with the
    message of the bag. *)
Lemma PrettyCQL_misshaped_panic :
  fst (PrettyCQL oneArray insertMisshaped)
  = Panicked (PanicUnknownType
                "set cql pretty, unknown type &{list int false}").
Proof. reflexivity. Qed.

Lemma PrettyCQL_without_placeholder_witness :
  fst (PrettyCQL oneArray selectAll) = Ok "SELECT * FROM t".
Proof.
  apply (@PrettyCQL_without_placeholder cqlLiteral oneArray selectAll
           [TBag list_of_int; TSimple "int"]).
  - unfold valid. cbn. lia.
  - reflexivity.
  - reflexivity.
  - reflexivity.
Defined.

Lemma PrettyCQL_fills_one_each_witness :
  exists query,
    fst (PrettyCQL oneArray insertShort) = Ok query
    /\ Count query "?" = 2 - Nat.min 2 1.
Proof.
  apply (@PrettyCQL_fills_one_each cqlLiteral oneArray insertShort
           [TBag list_of_int; TSimple "int"]).
  - unfold valid. cbn. lia.
  - reflexivity.
  - reflexivity.
Defined.

End ShapeFacts.

Module BagMoreFacts.

Import strings typedef typedef_rest StringFacts BagFacts.
Local Open Scope string_scope.

Section WithLiteral.

Variable literal : SimpleType -> cell -> option string.

(** X18.  Only the complex type [set] prints between braces: a bag of any
    other complex type prints as a list, between square brackets.  This
    holds for every slice whose elements match the value type, the empty
    one included, which prints as empty brackets. *)
Theorem BagType_CQLPretty_brackets ct pre post s rest lits :
  Count pre "?" = 0 ->
  literals literal (ValueType ct) s = Some lits ->
  inner_clean lits = true ->
  (ComplexType ct = TYPE_SET ->
   BagType_CQLPretty literal ct (pre ++ "?" ++ post) (VSlice s :: rest)
   = Ok (pre ++ "{" ++ Join lits "," ++ "}" ++ post, 1%Z))
  /\ (ComplexType ct <> TYPE_SET ->
      BagType_CQLPretty literal ct (pre ++ "?" ++ post) (VSlice s :: rest)
      = Ok (pre ++ "[" ++ Join lits "," ++ "]" ++ post, 1%Z)).
Proof.
  intros Hpre Hl Hin. split; intros Hc.
  - rewrite (@BagType_CQLPretty_eq literal ct _ s rest lits Hl Hin). rewrite Hc.
    change (String.eqb TYPE_SET TYPE_SET) with true. cbv iota.
    change (pre ++ "?" ++ post) with (pre ++ String "?" post).
    rewrite Replace1_leftmost by assumption. now rewrite !app_assoc.
  - rewrite (@BagType_CQLPretty_eq literal ct _ s rest lits Hl Hin).
    apply String.eqb_neq in Hc. rewrite Hc.
    change (pre ++ "?" ++ post) with (pre ++ String "?" post).
    rewrite Replace1_leftmost by assumption. now rewrite !app_assoc.
Qed.

(** X19.  On a query without [?] a bag prints nothing and still reports
    its value consumed: for a slice whose elements match the value type,
    the query comes back as it is, with 1. *)
Theorem BagType_CQLPretty_no_placeholder ct query s rest lits :
  Count query "?" = 0 ->
  literals literal (ValueType ct) s = Some lits ->
  BagType_CQLPretty literal ct query (VSlice s :: rest) = Ok (query, 1%Z).
Proof.
  intros Hq Hl.
  destruct (@BagType_CQLPretty_returns literal ct query s rest lits Hl)
    as [vv ->].
  now rewrite Replace1_absent.
Qed.

End WithLiteral.

Import examples.

Lemma BagType_CQLPretty_brackets_witness :
  BagType_CQLPretty cqlLiteral (mkBagType "map" "int" false)
    "UPDATE t SET l=? WHERE k=?" [VSlice []; VInt 4]
  = Ok ("UPDATE t SET l=[] WHERE k=?", 1%Z).
Proof.
  apply (@BagType_CQLPretty_brackets cqlLiteral (mkBagType "map" "int" false)
           "UPDATE t SET l=" " WHERE k=?" [] [VInt 4] []);
    [reflexivity | reflexivity | reflexivity | discriminate].
Defined.

Lemma BagType_CQLPretty_no_placeholder_witness :
  BagType_CQLPretty cqlLiteral list_of_int "SELECT * FROM t" [VSlice [VInt 1]]
  = Ok ("SELECT * FROM t", 1%Z).
Proof.
  apply (@BagType_CQLPretty_no_placeholder cqlLiteral list_of_int
           "SELECT * FROM t" [VInt 1] [] ["1"]); reflexivity.
Defined.

End BagMoreFacts.

(* ===================================================================== *)
(** ** More on the generation of bags *)
(* ===================================================================== *)

Module GenMoreFacts.

Import typedef typedef_rest GenFacts.

Lemma set_index_next (filled rest : list cell) (x y : cell) :
  set_index (filled ++ y :: rest) (List.length filled) x
  = ((filled ++ [x]) ++ rest)%list.
Proof.
  induction filled as [|z filled IH]; cbn; [reflexivity | now rewrite IH].
Qed.

Section WithGen.

Variable SimpleType_GenValue :
  SimpleType -> Rand -> PartitionRangeConfig -> list cell * Rand.
Variable SimpleType_GenJSONValue :
  SimpleType -> Rand -> PartitionRangeConfig -> cell * Rand.

Hypothesis SimpleType_GenValue_cell :
  forall st r p, fst (SimpleType_GenValue st r p) <> [].

(** The loop of [GenValue] fills the cells that [make] left nil, from left
    to right, with what the value type generates. *)
Lemma GenValue_loop_generated ct p todo : forall filled r,
  GenValue_loop SimpleType_GenValue ct p todo (List.length filled)
    (filled ++ repeat VNil todo) r
  = Ok ((filled
         ++ fst (generated SimpleType_GenValue (ValueType ct) p todo r))%list,
        snd (generated SimpleType_GenValue (ValueType ct) p todo r)).
Proof.
  induction todo as [|todo IH]; intros filled r; cbn [GenValue_loop generated].
  - reflexivity.
  - pose proof (SimpleType_GenValue_cell (ValueType ct) r p) as Hne.
    destruct (SimpleType_GenValue (ValueType ct) r p) as [[|x xs] r1];
      [now elim Hne|].
    cbn [repeat hd]. rewrite set_index_next.
    specialize (IH (filled ++ [x])%list r1).
    rewrite length_app in IH. cbn [List.length] in IH.
    replace (List.length filled + 1) with (S (List.length filled)) in IH by lia.
    rewrite IH.
    destruct (generated SimpleType_GenValue (ValueType ct) p todo r1)
      as [more r2].
    cbn [fst snd]. now rewrite <- app_assoc.
Qed.

Lemma GenJSONValue_loop_length ct p todo : forall i out r,
  List.length (fst (GenJSONValue_loop SimpleType_GenJSONValue ct p todo i out r))
  = List.length out.
Proof.
  induction todo as [|todo IH]; intros i out r; cbn [GenJSONValue_loop];
    [reflexivity|].
  destruct (SimpleType_GenJSONValue (ValueType ct) r p) as [x r1].
  now rewrite IH, set_index_length.
Qed.

(** X20.  [GenValue] leaves no cell of the bag as [make] created it: the
    bag is, in order, the first cell of each of [count] successive
    generations of the value type, the random source being handed from
    the draw of [count] to the first generation and from each generation
    to the next. *)
Theorem BagType_GenValue_generated ct r p :
  BagType_GenValue SimpleType_GenValue ct r p
  = let '(count, r1) := RandInt2 r 1 (maxBagSize + 1) in
    let '(out, r2) :=
      generated SimpleType_GenValue (ValueType ct) p (Z.to_nat count) r1 in
    Ok ([VSlice out], r2).
Proof.
  unfold BagType_GenValue.
  pose proof (@RandInt2_bounds r 1 (maxBagSize + 1) ltac:(reflexivity)) as Hb.
  destruct (RandInt2 r 1 (maxBagSize + 1)) as [count r1]. cbn [fst] in Hb.
  destruct (Z.ltb_spec count 0) as [Hneg|_]; [lia|].
  pose proof (GenValue_loop_generated ct p (Z.to_nat count) [] r1) as Hl.
  cbn [List.length app] in Hl. rewrite Hl.
  now destruct (generated SimpleType_GenValue (ValueType ct) p
                  (Z.to_nat count) r1).
Qed.

(** X21.  From the same random source [GenValue] and [GenJSONValue]
    generate bags of the same size, the one wrapped in a vector of one
    cell, the other as the slice itself. *)
Theorem BagType_GenJSONValue_same_size ct r p :
  exists out r1 json r2,
    BagType_GenValue SimpleType_GenValue ct r p = Ok ([VSlice out], r1)
    /\ BagType_GenJSONValue SimpleType_GenJSONValue ct r p
       = Ok (VSlice json, r2)
    /\ List.length json = List.length out.
Proof.
  unfold BagType_GenValue, BagType_GenJSONValue.
  pose proof (@RandInt2_bounds r 1 (maxBagSize + 1) ltac:(reflexivity)) as Hb.
  destruct (RandInt2 r 1 (maxBagSize + 1)) as [count r0]. cbn [fst] in Hb.
  destruct (Z.ltb_spec count 0) as [Hneg|_]; [lia|].
  destruct (@GenValue_loop_length SimpleType_GenValue SimpleType_GenValue_cell
              ct p (Z.to_nat count) 0 (repeat VNil (Z.to_nat count)) r0)
    as (out & r1 & Hl & Hlen).
  rewrite Hl.
  pose proof (GenJSONValue_loop_length ct p (Z.to_nat count) 0
                (repeat VNil (Z.to_nat count)) r0) as Hj.
  destruct (GenJSONValue_loop SimpleType_GenJSONValue ct p (Z.to_nat count) 0
              (repeat VNil (Z.to_nat count)) r0) as [json r2].
  cbn [fst] in Hj. exists out, r1, json, r2.
  repeat split. now rewrite Hj, Hlen.
Qed.

End WithGen.

Import examples examples_rest.

Lemma BagType_GenValue_generated_witness :
  BagType_GenValue genInt list_of_int counting noBounds
  = let '(count, r1) := RandInt2 counting 1 (maxBagSize + 1) in
    let '(out, r2) :=
      generated genInt (ValueType list_of_int) noBounds (Z.to_nat count) r1 in
    Ok ([VSlice out], r2).
Proof.
  apply (@BagType_GenValue_generated genInt).
  intros st r p. discriminate.
Defined.

Lemma BagType_GenJSONValue_same_size_witness :
  exists out r1 json r2,
    BagType_GenValue genInt list_of_int counting noBounds = Ok ([VSlice out], r1)
    /\ BagType_GenJSONValue genJSONInt list_of_int counting noBounds
       = Ok (VSlice json, r2)
    /\ List.length json = List.length out.
Proof.
  apply (@BagType_GenJSONValue_same_size genInt genJSONInt).
  intros st r p. discriminate.
Defined.

End GenMoreFacts.

(* ===================================================================== *)
(** ** Edges: no key to a worker, no room in a copy, values past the types *)
(* ===================================================================== *)

Module EdgeFacts.

Import strings typedef typedef_rest cmd GoIntFacts ValuesFacts ShapeFacts.

Section Ranges.

Local Open Scope Z_scope.

Lemma runJob_spawn_nth_signed K todo : forall i k d,
  0 <= i -> i + Z.of_nat todo <= GoInt.max_int ->
  (forall j, i <= j <= i + Z.of_nat todo -> GoInt.in_range (j * K)) ->
  (k < todo)%nat ->
  nth k (runJob_spawn K todo i) d
  = mkPartitionRange ((i + Z.of_nat k) * K) ((i + Z.of_nat k + 1) * K).
Proof.
  induction todo as [|todo IH]; intros i k d Hi Hmax Hr Hk; [lia|].
  cbn [runJob_spawn]. destruct k as [|k]; cbn [nth].
  - unfold runJob_range.
    rewrite mul_exact by (apply Hr; lia).
    rewrite !add_exact.
    + f_equal; lia.
    + replace (K + i * K) with ((i + 1) * K) by lia. apply Hr. lia.
    + apply Hr. lia.
  - rewrite add_exact.
    + rewrite IH; [f_equal; lia | lia | lia | | lia].
      intros j Hj. apply Hr. lia.
    + unfold GoInt.in_range. rewrite min_int_eq. lia.
Qed.

(** X22.  With no key for a worker ([pkNumberPerThread] zero or negative,
    the products within [int]) every range [runJob] hands out is empty: no
    seed belongs to any of them. *)
Theorem runJob_ranges_without_keys N K :
  N <= GoInt.max_int -> K <= 0 -> - GoInt.max_int <= N * K ->
  forall i x,
    (i < Z.to_nat N)%nat ->
    ~ owns (nth i (runJob_ranges N K) (mkPartitionRange 0 0)) x.
Proof.
  intros HN HK Hmax i x Hi. unfold runJob_ranges.
  rewrite runJob_spawn_nth_signed; try lia.
  - unfold owns. cbn [Min Max]. nia.
  - intros j Hj. unfold GoInt.in_range.
    rewrite max_int_eq, min_int_eq in *. nia.
Qed.

End Ranges.

Lemma runJob_ranges_without_keys_witness :
  ~ owns (nth 1 (runJob_ranges 2 0) (mkPartitionRange 0 0)) 0%Z.
Proof.
  apply (@runJob_ranges_without_keys 2 0); [cbn; lia | lia | cbn; lia | cbn; lia].
Defined.

(** X23.  A copy has no room to grow: the slice [Values.Copy] returns has
    its capacity equal to its length, so [CopyFrom] on it panics for
    every source that is not empty. *)
Theorem Copy_leaves_no_room h v src :
  valid h v ->
  let copied := fst (Values_Copy h v) in
  let h1 := snd (Values_Copy h v) in
  cap copied = len copied
  /\ ((exists grown, CopyFrom h1 copied src = Done grown) <-> len src = 0).
Proof.
  intros Hv. cbv zeta. rewrite Values_Copy_eq by assumption.
  cbn [fst snd]. split; [reflexivity|].
  unfold CopyFrom, reslice. cbn [len cap ptr off andb].
  replace (Nat.leb (len v) (len v + len src)) with true
    by (symmetry; apply Nat.leb_le; lia).
  cbn [andb].
  destruct (Nat.leb_spec (len v + len src) (len v)) as [Hle|Hgt].
  - destruct (copy _ _ src) as [n h']. split; [lia|].
    intros _. eexists. reflexivity.
  - split; [intros [grown H]; discriminate H | lia].
Qed.

Lemma Copy_leaves_no_room_witness :
  (exists grown,
     CopyFrom (snd (Values_Copy examples_rest.roomyArray examples_rest.firstTwo))
       (fst (Values_Copy examples_rest.roomyArray examples_rest.firstTwo))
       examples_rest.eightNine = Done grown)
  <-> len examples_rest.eightNine = 0.
Proof.
  apply (@Copy_leaves_no_room examples_rest.roomyArray examples_rest.firstTwo
           examples_rest.eightNine).
  unfold valid. cbn. lia.
Defined.

Section WithLiteral.

Variable literal : SimpleType -> cell -> option string.

Lemma firstn_S_nil (A : Type) (n : nat) (l : list A) :
  firstn (S n) l = [] -> l = [].
Proof. destruct l; [reflexivity | discriminate]. Qed.

(** Over simple types and bags the loop looks at no more values than there
    are types, whatever store they are in. *)
Lemma loop_ignores_surplus types : forall query ha va hb vb,
  valid ha va -> valid hb vb ->
  firstn (List.length types) (elems ha va)
  = firstn (List.length types) (elems hb vb) ->
  PrettyCQL_loop ha (map (Type_of literal) types) query va
  = PrettyCQL_loop hb (map (Type_of literal) types) query vb.
Proof.
  induction types as [|typ types IH]; intros query ha va hb vb Ha Hb Hf;
    [reflexivity|].
  cbn [List.length] in Hf.
  destruct (elems ha va) as [|v vs] eqn:Ea.
  - symmetry in Hf. apply firstn_S_nil in Hf.
    rewrite (@loop_out literal ha (typ :: types) query va Ha Ea).
    now rewrite (@loop_out literal hb (typ :: types) query vb Hb Hf).
  - destruct (elems hb vb) as [|v' vs'] eqn:Eb; [discriminate Hf|].
    cbn [firstn] in Hf. injection Hf as <- Hf.
    cbn [map].
    destruct (matches literal typ v) eqn:Es.
    + destruct (@Type_of_matched literal typ v Es) as [new Hp].
      destruct (@loop_round_found ha (Type_of literal typ)
                  (map (Type_of literal) types) query va v vs _ Ha Ea
                  (Hp query vs)) as (-> & Ha' & Ea' & _).
      destruct (@loop_round_found hb (Type_of literal typ)
                  (map (Type_of literal) types) query vb v vs' _ Hb Eb
                  (Hp query vs')) as (-> & Hb' & Eb' & _).
      apply IH; [assumption | assumption | now rewrite Ea', Eb'].
    + destruct (@Type_of_mismatched literal typ v Es) as [p Hp].
      cbn [PrettyCQL_loop]. rewrite Ea, Eb. now rewrite !Hp.
Qed.

(** X24.  For statements whose types are simple types and bags, each of
    which consumes one value: [PrettyCQL] looks at no more values than
    the statement has types.  Two such statements with the same query and
    types whose values agree on the first [len(Types)] of them print
    alike, or panic alike, whatever their further values are and wherever
    they are stored. *)
Theorem PrettyCQL_ignores_surplus_values ha sa hb sb types :
  valid ha (Values_ sa) -> valid hb (Values_ sb) ->
  Query (Cache sa) = Query (Cache sb) ->
  Types (Cache sa) = map (Type_of literal) types ->
  Types (Cache sb) = map (Type_of literal) types ->
  firstn (List.length types) (elems ha (Values_ sa))
  = firstn (List.length types) (elems hb (Values_ sb)) ->
  fst (PrettyCQL ha sa) = fst (PrettyCQL hb sb).
Proof.
  intros Ha Hb Hq Hta Htb Hf.
  destruct (@PrettyCQL_as_loop literal ha sa types Ha Hta)
    as (ha' & va & -> & Ha' & Ea & _).
  destruct (@PrettyCQL_as_loop literal hb sb types Hb Htb)
    as (hb' & vb & -> & Hb' & Eb & _).
  rewrite <- Hq.
  apply loop_ignores_surplus; [assumption | assumption | now rewrite Ea, Eb].
Qed.

End WithLiteral.

Import examples examples_rest.

Lemma PrettyCQL_ignores_surplus_values_witness :
  fst (PrettyCQL oneArray
         (mkStmt (Cache selectTwo) None (mkValues 0 0 2 2)))
  = fst (PrettyCQL [[VSlice [VInt 1; VInt 2]]]
           (mkStmt (Cache selectTwo) None (mkValues 0 0 1 1))).
Proof.
  apply (@PrettyCQL_ignores_surplus_values cqlLiteral oneArray
           (mkStmt (Cache selectTwo) None (mkValues 0 0 2 2))
           [[VSlice [VInt 1; VInt 2]]]
           (mkStmt (Cache selectTwo) None (mkValues 0 0 1 1))
           [TBag list_of_int]);
    try reflexivity; unfold valid; cbn; lia.
Defined.

(** A type that consumes several values looks further: the tuple of the
    example prints the second and the third value of the statement. *)
Lemma PrettyCQL_tuple_looks_further :
  fst (PrettyCQL threeCells insertPair)
  = Ok "INSERT INTO t (l,p) VALUES ([1,2],(3,'x'))"%string.
Proof. reflexivity. Qed.

End EdgeFacts.
